(** * Verification of the in-memory chat server ([server.js])

    A shallow embedding of the Socket.IO chat server: the module-level
    state ([messages], [connectedUsers], [userStatus], [typingUsers],
    [readReceipts]), every socket handler, the typing sweep run by
    [setInterval], the [/api/search] and [/api/login] routes, and the
    socket event handlers of the client ([ChatRoom.tsx]) that mirror the
    server state.

    Conventions.
    - A handler is a function from the server state to the new state and
      the list of events it emits, in emission order.  Handlers run to
      completion one at a time, as on the Node event loop.
    - Readings of the environment ([Date.now()], [Math.random()],
      [new Date().toISOString()]) are arguments of the handler.
    - JavaScript numbers are IEEE binary64 values ([PrimFloat.float]);
      [Date.now()] is a whole number of milliseconds and is kept in [Z].
    - Strings are sequences of code units below 256 (Latin-1), on which
      [toLowerCase] is a per-character map.  The test of the search route
      is modelled a second time on UTF-16 strings ([JSString]) for the
      code units below 256 and the sigmas, where lower-casing depends on
      the context.
    - A [Map] is the list of its entries in insertion order; a [Set] of
      strings is the list of its elements in insertion order. *)

From Stdlib Require Import ZArith List String Ascii Bool Lia PrimFloat Uint63.
From Stdlib Require Import SpecFloat FloatAxioms.
Import ListNotations.

Local Open Scope Z_scope.
Local Open Scope string_scope.
Local Open Scope list_scope.

(* ================================================================== *)
(** * Part I. Definitions                                              *)
(* ================================================================== *)

(** ** Strings: [String.prototype.toLowerCase] and [includes] *)

(** Lower-casing of one Latin-1 code unit: [A-Z], [U+00C0-U+00D6] and
    [U+00D8-U+00DE] move up by 32, every other code unit is kept. *)
Definition toLowerCase_char (c : ascii) : ascii :=
  let n := N_of_ascii c in
  if ((65 <=? n) && (n <=? 90) || (192 <=? n) && (n <=? 214)
      || (216 <=? n) && (n <=? 222))%N
  then ascii_of_N (n + 32) else c.

Fixpoint toLowerCase (s : string) : string :=
  match s with
  | EmptyString => EmptyString
  | String c r => String (toLowerCase_char c) (toLowerCase r)
  end.

(** [startsWith p s]: [p] is a prefix of [s]. *)
Fixpoint startsWith (p s : string) : bool :=
  match p, s with
  | EmptyString, _ => true
  | String _ _, EmptyString => false
  | String a p', String b s' => Ascii.eqb a b && startsWith p' s'
  end.

(** [includes s q] is [s.includes(q)]: [q] occurs in [s] at some position. *)
Fixpoint includes (s q : string) : bool :=
  startsWith q s ||
  match s with
  | EmptyString => false
  | String _ r => includes r q
  end.

(** ** Numbers *)

Definition Number := float.

(** [x === y] on numbers: IEEE equality ([NaN] differs from itself,
    [+0] equals [-0]). *)
Definition strict_eq (x y : Number) : bool := PrimFloat.eqb x y.

Definition is_NaN (x : Number) : bool := negb (PrimFloat.eqb x x).

(** Key comparison of [Map] and [Set]: like [===] but [NaN] equals [NaN]. *)
Definition SameValueZero (x y : Number) : bool :=
  PrimFloat.eqb x y || is_NaN x && is_NaN y.

(** [Map.prototype.set] stores the key [-0] as [+0]. *)
Definition normalize_zero (x : Number) : Number :=
  if PrimFloat.eqb PrimFloat.zero x then PrimFloat.zero else x.

(** The number holding a clock reading; exact for [0 <= ms < 2^53], which
    covers every instant a [Date] can represent. *)
Definition Number_of_ms (ms : Z) : Number :=
  PrimFloat.of_uint63 (Uint63.of_Z ms).

(** ** [Map] and [Set] *)

Section JSMap.
Context {K V : Type}.
(** [same] is the key comparison, [canon] the key actually stored when a
    fresh entry is created. *)
Variable same : K -> K -> bool.
Variable canon : K -> K.

Fixpoint Map_get (k : K) (m : list (K * V)) : option V :=
  match m with
  | [] => None
  | (k', v) :: r => if same k' k then Some v else Map_get k r
  end.

Definition Map_has (k : K) (m : list (K * V)) : bool :=
  match Map_get k m with Some _ => true | None => false end.

(** An existing entry keeps its position; a fresh one goes last. *)
Fixpoint Map_set (k : K) (v : V) (m : list (K * V)) : list (K * V) :=
  match m with
  | [] => [(canon k, v)]
  | (k', v') :: r =>
      if same k' k then (k', v) :: r else (k', v') :: Map_set k v r
  end.

Fixpoint Map_delete (k : K) (m : list (K * V)) : list (K * V) :=
  match m with
  | [] => []
  | (k', v') :: r =>
      if same k' k then r else (k', v') :: Map_delete k r
  end.

(** No two entries of a [Map] have the same key. *)
Fixpoint Map_wf (m : list (K * V)) : Prop :=
  match m with
  | [] => True
  | (k, _) :: r => Map_get k r = None /\ Map_wf r
  end.
End JSMap.

Definition StrMap (V : Type) := list (string * V).
Definition str_get {V} := @Map_get string V String.eqb.
Definition str_has {V} := @Map_has string V String.eqb.
Definition str_set {V} := @Map_set string V String.eqb (fun k => k).
Definition str_delete {V} := @Map_delete string V String.eqb.
Definition str_wf {V} := @Map_wf string V String.eqb.

Definition NumMap (V : Type) := list (Number * V).
Definition num_get {V} := @Map_get Number V (fun stored k => SameValueZero stored k).
Definition num_has {V} := @Map_has Number V (fun stored k => SameValueZero stored k).
Definition num_set {V} :=
  @Map_set Number V (fun stored k => SameValueZero stored k) normalize_zero.

(** [Set.prototype.add] on a set of strings. *)
Definition Set_add (u : string) (s : list string) : list string :=
  if existsb (String.eqb u) s then s else s ++ [u].

(** ** Messages and server state *)

Record Attachment := {
  filename : string;
  originalName : string;
  size : Z;
  mimetype : string;
  url : string
}.

Record Message := {
  id : Number;
  username : string;
  content : string;
  type : string;
  attachment : option Attachment;
  timestamp : string;
  edited : bool;
  editedAt : option string
}.

Definition SocketId := string.

Record State := {
  messages : list Message;
  connectedUsers : StrMap string;      (* socket.id -> username *)
  userStatus : StrMap string;          (* username -> 'online' | 'offline' *)
  typingUsers : StrMap Z;              (* username -> Date.now() *)
  readReceipts : NumMap (list string)  (* messageId -> Set of usernames *)
}.

Definition initial : State :=
  {| messages := []; connectedUsers := []; userStatus := [];
     typingUsers := []; readReceipts := [] |}.

(** ** Events and their targets *)

Inductive Event :=
| user_status_update (user status : string)
| user_joined (user : string)
| chat_history (history : list Message)
| online_users (roster : list (string * string))
| new_message (message : Message)
| message_edited (messageId : Number) (newContent : string)
                 (at_ : option string)
| message_deleted (messageId : Number)
| user_typing (user : string)
| user_stopped_typing (user : string)
| message_read (messageId : Number) (readBy : string)
| user_left (user : string).

(** [io.emit], [socket.broadcast.emit] and [socket.emit] of the socket
    whose handler is running. *)
Inductive Target :=
| io_emit
| socket_broadcast_emit (self : SocketId)
| socket_emit (self : SocketId).

Definition Emission := (Target * Event)%type.

(** Whether connection [c] is among the receivers of a target. *)
Definition receives (t : Target) (c : SocketId) : bool :=
  match t with
  | io_emit => true
  | socket_broadcast_emit self => negb (String.eqb c self)
  | socket_emit self => String.eqb c self
  end.

(** The events connection [c] receives from a run of emissions, in order. *)
Definition inbox (c : SocketId) (out : list Emission) : list Event :=
  map snd (filter (fun e => receives (fst e) c) out).

(** ** Array helpers *)

(** [l.findIndex(p)]; [None] stands for [-1]. *)
Fixpoint findIndex {A} (p : A -> bool) (l : list A) : option nat :=
  match l with
  | [] => None
  | x :: r => if p x then Some O
              else match findIndex p r with
                   | Some i => Some (S i)
                   | None => None
                   end
  end.

(** [l.slice(-n)]: the last [n] elements. *)
Definition slice_last {A} (n : nat) (l : list A) : list A :=
  skipn (List.length l - n) l.

(** [l.splice(i, 1)]. *)
Fixpoint splice1 {A} (i : nat) (l : list A) : list A :=
  match l, i with
  | [], _ => []
  | _ :: r, O => r
  | x :: r, S j => x :: splice1 j r
  end.

(** Assignment to fields of [l[i]]. *)
Fixpoint update_at {A} (i : nat) (f : A -> A) (l : list A) : list A :=
  match l, i with
  | [], _ => []
  | x :: r, O => f x :: r
  | x :: r, S j => x :: update_at j f r
  end.

(** ** Handler payloads *)

Record SendData := {
  s_username : string;
  s_content : string;
  s_type : option string;
  s_attachment : option Attachment
}.

Record EditData := {
  e_messageId : Number;
  e_username : string;
  e_newContent : string
}.

Record DeleteData := {
  d_messageId : Number;
  d_username : string
}.

Record ReadData := {
  r_messageId : Number;
  r_username : string
}.

(** [data.type || 'text']: an absent or empty type falls back to 'text'. *)
Definition type_or_text (t : option string) : string :=
  match t with
  | None => "text"
  | Some EmptyString => "text"
  | Some s => s
  end.

(** ** Socket handlers *)

Definition set_messages (ms : list Message) (st : State) : State :=
  {| messages := ms; connectedUsers := connectedUsers st;
     userStatus := userStatus st; typingUsers := typingUsers st;
     readReceipts := readReceipts st |}.

Definition set_typingUsers (tu : StrMap Z) (st : State) : State :=
  {| messages := messages st; connectedUsers := connectedUsers st;
     userStatus := userStatus st; typingUsers := tu;
     readReceipts := readReceipts st |}.

Definition set_readReceipts (rr : NumMap (list string)) (st : State) : State :=
  {| messages := messages st; connectedUsers := connectedUsers st;
     userStatus := userStatus st; typingUsers := typingUsers st;
     readReceipts := rr |}.

(** [socket.on('join', username)] *)
Definition join (self : SocketId) (user : string) (st : State)
  : State * list Emission :=
  let cu := str_set self user (connectedUsers st) in
  let us := str_set user "online" (userStatus st) in
  let onlineUsers := filter (fun e => String.eqb (snd e) "online") us in
  ({| messages := messages st; connectedUsers := cu; userStatus := us;
      typingUsers := typingUsers st; readReceipts := readReceipts st |},
   [ (io_emit, user_status_update user "online");
     (socket_broadcast_emit self, user_joined user);
     (socket_emit self, chat_history (messages st));
     (socket_emit self, online_users onlineUsers) ]).

(** The message object built by [send_message]. *)
Definition build_message (now : Z) (rnd : Number) (iso : string)
    (data : SendData) : Message :=
  {| id := PrimFloat.add (Number_of_ms now) rnd;
     username := s_username data;
     content := s_content data;
     type := type_or_text (s_type data);
     attachment := s_attachment data;
     timestamp := iso;
     edited := false;
     editedAt := None |}.

(** [messages.push(message)] followed by the trim to the last 100. *)
Definition push_and_trim (message : Message) (ms : list Message)
  : list Message :=
  let pushed := ms ++ [message] in
  if (100 <? List.length pushed)%nat then slice_last 100 pushed else pushed.

(** [socket.on('send_message', data)] *)
Definition send_message (now : Z) (rnd : Number) (iso : string)
    (data : SendData) (st : State) : State * list Emission :=
  let message := build_message now rnd iso data in
  ({| messages := push_and_trim message (messages st);
      connectedUsers := connectedUsers st;
      userStatus := userStatus st;
      typingUsers := str_delete (s_username data) (typingUsers st);
      readReceipts := readReceipts st |},
   [ (io_emit, user_stopped_typing (s_username data));
     (io_emit, new_message message) ]).

Definition apply_edit (newContent iso : string) (m : Message) : Message :=
  {| id := id m; username := username m; content := newContent;
     type := type m; attachment := attachment m; timestamp := timestamp m;
     edited := true; editedAt := Some iso |}.

(** [socket.on('edit_message', data)] *)
Definition edit_message (iso : string) (data : EditData) (st : State)
  : State * list Emission :=
  match findIndex (fun msg => strict_eq (id msg) (e_messageId data))
                  (messages st) with
  | Some messageIndex =>
      match nth_error (messages st) messageIndex with
      | Some found =>
          if String.eqb (username found) (e_username data) then
            (set_messages
               (update_at messageIndex (apply_edit (e_newContent data) iso)
                          (messages st)) st,
             [ (io_emit, message_edited (e_messageId data)
                                        (e_newContent data) (Some iso)) ])
          else (st, [])
      | None => (st, [])
      end
  | None => (st, [])
  end.

(** [socket.on('delete_message', data)] *)
Definition delete_message (data : DeleteData) (st : State)
  : State * list Emission :=
  match findIndex (fun msg => strict_eq (id msg) (d_messageId data))
                  (messages st) with
  | Some messageIndex =>
      match nth_error (messages st) messageIndex with
      | Some found =>
          if String.eqb (username found) (d_username data) then
            (set_messages (splice1 messageIndex (messages st)) st,
             [ (io_emit, message_deleted (d_messageId data)) ])
          else (st, [])
      | None => (st, [])
      end
  | None => (st, [])
  end.

(** [socket.on('typing', username)] *)
Definition typing (self : SocketId) (now : Z) (user : string) (st : State)
  : State * list Emission :=
  (set_typingUsers (str_set user now (typingUsers st)) st,
   [ (socket_broadcast_emit self, user_typing user) ]).

(** [socket.on('stop_typing', username)] *)
Definition stop_typing (self : SocketId) (user : string) (st : State)
  : State * list Emission :=
  (set_typingUsers (str_delete user (typingUsers st)) st,
   [ (socket_broadcast_emit self, user_stopped_typing user) ]).

(** [socket.on('mark_as_read', data)].  The set stored under the key is
    the only reference to that [Set] object, so [get(k).add(u)] is the
    replacement of the stored value; the key is present at that point
    (lemma [mark_as_read_key_present]). *)
Definition mark_as_read (data : ReadData) (st : State)
  : State * list Emission :=
  let messageId := r_messageId data in
  let rr1 := if negb (num_has messageId (readReceipts st))
             then num_set messageId [] (readReceipts st)
             else readReceipts st in
  let rr2 := match num_get messageId rr1 with
             | Some readers =>
                 num_set messageId (Set_add (r_username data) readers) rr1
             | None => rr1
             end in
  (set_readReceipts rr2 st,
   [ (io_emit, message_read messageId (r_username data)) ]).

(** [socket.on('disconnect')]; [if (username)] fails for a socket that
    never joined and for the empty name. *)
Definition disconnect (self : SocketId) (st : State)
  : State * list Emission :=
  match str_get self (connectedUsers st) with
  | Some (String c r as user) =>
      ({| messages := messages st;
          connectedUsers := str_delete self (connectedUsers st);
          userStatus := str_set user "offline" (userStatus st);
          typingUsers := str_delete user (typingUsers st);
          readReceipts := readReceipts st |},
       [ (io_emit, user_status_update user "offline");
         (socket_broadcast_emit self, user_left user);
         (io_emit, user_stopped_typing user) ])
  | _ => (st, [])
  end.

(** ** The typing sweep ([setInterval], every second) *)

(** One turn of the [for ... of typingUsers.entries()] loop. *)
Definition sweep_entry (now : Z) (acc : StrMap Z * list Emission)
    (entry : string * Z) : StrMap Z * list Emission :=
  let (user, stamp) := entry in
  if (3000 <? now - stamp)%Z
  then (str_delete user (fst acc),
        snd acc ++ [ (io_emit, user_stopped_typing user) ])
  else acc.

(** The loop visits the entries present when it starts: the only entry a
    turn deletes is the one it is visiting. *)
Definition sweep_typing (now : Z) (tu : StrMap Z)
  : StrMap Z * list Emission :=
  fold_left (sweep_entry now) tu (tu, []).

Definition typing_sweep (now : Z) (st : State) : State * list Emission :=
  let (tu, out) := sweep_typing now (typingUsers st) in
  (set_typingUsers tu st, out).

(** ** HTTP routes *)

(** [GET /api/messages] *)
Definition api_messages (st : State) : list Message := messages st.

Definition search_match (query : string) (message : Message) : bool :=
  includes (toLowerCase (content message)) (toLowerCase query)
  || includes (toLowerCase (username message)) (toLowerCase query).

(** [GET /api/search]; [query] is [None] when the parameter is absent.
    [!query] holds for an absent and for an empty query. *)
Definition api_search (query : option string) (st : State) : list Message :=
  match query with
  | None => []
  | Some EmptyString => []
  | Some q => filter (search_match q) (messages st)
  end.

(** ** The dispatcher *)

Inductive Input :=
| on_join (self : SocketId) (user : string)
| on_send_message (now : Z) (rnd : Number) (iso : string) (data : SendData)
| on_edit_message (iso : string) (data : EditData)
| on_delete_message (data : DeleteData)
| on_typing (self : SocketId) (now : Z) (user : string)
| on_stop_typing (self : SocketId) (user : string)
| on_mark_as_read (data : ReadData)
| on_disconnect (self : SocketId)
| on_interval (now : Z).

Definition handle (i : Input) (st : State) : State * list Emission :=
  match i with
  | on_join self user => join self user st
  | on_send_message now rnd iso data => send_message now rnd iso data st
  | on_edit_message iso data => edit_message iso data st
  | on_delete_message data => delete_message data st
  | on_typing self now user => typing self now user st
  | on_stop_typing self user => stop_typing self user st
  | on_mark_as_read data => mark_as_read data st
  | on_disconnect self => disconnect self st
  | on_interval now => typing_sweep now st
  end.

(** Inputs are handled one after the other; the emissions accumulate. *)
Fixpoint run (inputs : list Input) (st : State) : State * list Emission :=
  match inputs with
  | [] => (st, [])
  | i :: rest =>
      let (st1, out1) := handle i st in
      let (st2, out2) := run rest st1 in
      (st2, out1 ++ out2)
  end.

(** ** The search test on UTF-16 strings *)

(** A JavaScript string as the list of its UTF-16 code units.  The model
    below covers the code units under 256 and the three sigmas, and
    answers [None] for any other string. *)
Definition JSString := list N.

Definition capital_sigma : N := 931.   (* U+03A3 *)
Definition final_sigma : N := 962.     (* U+03C2 *)
Definition small_sigma : N := 963.     (* U+03C3 *)

Definition in_alphabet (n : N) : bool :=
  ((n <? 256) || (n =? capital_sigma) || (n =? final_sigma)
   || (n =? small_sigma))%N.

(** The lower-case mapping of a code unit under 256. *)
Definition lower_unit (n : N) : N :=
  if ((65 <=? n) && (n <=? 90) || (192 <=? n) && (n <=? 214)
      || (216 <=? n) && (n <=? 222))%N
  then (n + 32)%N else n.

(** The Unicode property [Cased] on the alphabet. *)
Definition cased (n : N) : bool :=
  ((65 <=? n) && (n <=? 90) || (97 <=? n) && (n <=? 122)
   || (n =? 170) || (n =? 181) || (n =? 186)
   || (192 <=? n) && (n <=? 214) || (216 <=? n) && (n <=? 246)
   || (248 <=? n) && (n <=? 255)
   || (n =? capital_sigma) || (n =? final_sigma) || (n =? small_sigma))%N.

(** The Unicode property [Case_Ignorable] on the alphabet. *)
Definition case_ignorable (n : N) : bool :=
  ((n =? 39) || (n =? 46) || (n =? 58) || (n =? 94) || (n =? 96)
   || (n =? 168) || (n =? 173) || (n =? 175) || (n =? 180) || (n =? 183)
   || (n =? 184))%N.

(** Going away from the sigma, case-ignorable units are skipped and the
    first other unit is a cased letter. *)
Fixpoint cased_beyond_ignorable (units : list N) : bool :=
  match units with
  | [] => false
  | c :: r => if case_ignorable c then cased_beyond_ignorable r else cased c
  end.

(** The condition [Final_Sigma] of the Unicode special casing: a cased
    letter before (case-ignorable units apart), none after.  [before]
    is the text before the sigma, nearest unit first. *)
Definition is_final_sigma (before after : list N) : bool :=
  cased_beyond_ignorable before && negb (cased_beyond_ignorable after).

(** Lower-casing from left to right; [before] holds the units already
    passed, nearest first. *)
Fixpoint lower_from (before s : list N) : list N :=
  match s with
  | [] => []
  | c :: r =>
      (if (c =? capital_sigma)%N
       then if is_final_sigma before r then final_sigma else small_sigma
       else lower_unit c)
      :: lower_from (c :: before) r
  end.

(** [s.toLowerCase()] for the strings of the alphabet. *)
Definition js_toLowerCase (s : JSString) : option JSString :=
  if forallb in_alphabet s then Some (lower_from [] s) else None.

Fixpoint js_startsWith (p s : JSString) : bool :=
  match p, s with
  | [], _ => true
  | _ :: _, [] => false
  | a :: p', b :: s' => (a =? b)%N && js_startsWith p' s'
  end.

(** [s.includes(q)] *)
Fixpoint js_includes (s q : JSString) : bool :=
  js_startsWith q s ||
  match s with
  | [] => false
  | _ :: r => js_includes r q
  end.

(** [text.toLowerCase().includes(query.toLowerCase())] *)
Definition js_test (text query : JSString) : option bool :=
  match js_toLowerCase text, js_toLowerCase query with
  | Some t, Some q => Some (js_includes t q)
  | _, _ => None
  end.

(** The filter of the search route on a message with the given content
    and author. *)
Definition js_search_match (query content author : JSString) : option bool :=
  match js_test content query with
  | Some true => Some true
  | Some false => js_test author query
  | None => None
  end.

(** The code units of a string of the 8-bit model. *)
Fixpoint units_of (s : string) : JSString :=
  match s with
  | EmptyString => []
  | String c r => N_of_ascii c :: units_of r
  end.

(** ** Notions used to state the properties *)






(** The message carries the id [mid], as tested by [msg.id === mid]. *)
Definition has_id (mid : Number) (m : Message) : bool :=
  strict_eq (id m) mid.

(** The ids of the stored messages are pairwise different under [===]. *)
Fixpoint ids_distinct (ms : list Message) : Prop :=
  match ms with
  | [] => True
  | m :: r =>
      (forall m', In m' r -> strict_eq (id m) (id m') = false)
      /\ ids_distinct r
  end.

(** The arguments of one [send_message]: clock, random draw, ISO stamp and
    payload. *)
Definition SendArgs := (Z * Number * string * SendData)%type.

Definition send_input (a : SendArgs) : Input :=
  let '(now, rnd, iso, data) := a in on_send_message now rnd iso data.

Definition built (a : SendArgs) : Message :=
  let '(now, rnd, iso, data) := a in build_message now rnd iso data.

(** The event [user_stopped_typing] sent to everybody, as the sweep does. *)
Definition stopped_typing_broadcast (entry : string * Z) : Emission :=
  (io_emit, user_stopped_typing (fst entry)).

(** The sweep's test on one entry. *)
Definition expired (now : Z) (entry : string * Z) : bool :=
  (3000 <? now - snd entry)%Z.

(** A [send_message] draws an id that no stored message carries; every
    other input is fresh by default. *)
Definition fresh_for (i : Input) (ms : list Message) : Prop :=
  match i with
  | on_send_message now rnd iso data =>
      forall m, In m ms ->
                strict_eq (id m) (id (build_message now rnd iso data)) = false
  | _ => True
  end.

(** Every [send_message] of a run draws a fresh id at the moment it is
    handled. *)
Fixpoint all_fresh (inputs : list Input) (st : State) : Prop :=
  match inputs with
  | [] => True
  | i :: rest =>
      fresh_for i (messages st) /\ all_fresh rest (fst (handle i st))
  end.

(** The value [readReceipts.get(mid)] or the empty set. *)
Definition readers_of (mid : Number) (rr : NumMap (list string))
  : list string :=
  match num_get mid rr with Some s => s | None => [] end.

(** The roster sent to a joining connection. *)
Definition roster_after_join (user : string) (st : State)
  : list (string * string) :=
  filter (fun e => String.eqb (snd e) "online")
         (str_set user "online" (userStatus st)).

(** ** Scenarios *)

Definition text_from (user text : string) : SendData :=
  {| s_username := user; s_content := text; s_type := None;
     s_attachment := None |}.

(** [lev] says "hi" at 1700000000000 ms with the random draw 0.5. *)
Definition lev_says_hi : Input :=
  on_send_message 1700000000000 0.5%float "2023-11-14T22:13:20.000Z"
                  (text_from "lev" "hi").

(** [cin] answers in the same millisecond; the random draw differs from
    [lev]'s by [2^-14]. *)
Definition cin_same_ms : Input :=
  on_send_message 1700000000000 0.50006103515625%float
                  "2023-11-14T22:13:20.000Z" (text_from "cin" "yo").

(** [cin] answers one millisecond later. *)
Definition cin_next_ms : Input :=
  on_send_message 1700000000001 0.5%float "2023-11-14T22:13:20.001Z"
                  (text_from "cin" "yo").

(** The id of [lev]'s message in the scenarios. *)
Definition lev_id : Number := 1700000000000.5%float.

(** The store holds [lev]'s message only. *)
Definition lev_alone : State := fst (run [lev_says_hi] initial).

(** [lev]'s message has been read by [cin]. *)
Definition lev_read_by_cin : State :=
  fst (run [lev_says_hi;
            on_mark_as_read {| r_messageId := lev_id; r_username := "cin" |}]
           initial).

(** ** Login ([POST /api/login]) *)

(** The accounts of the object literal [users]: key, then the [username]
    and [password] fields. *)
Definition users : StrMap (string * string) :=
  [ ("lev", ("lev", "lev")); ("cin", ("cin", "cin")) ].

(** The names every object created by a literal inherits from
    [Object.prototype]. *)
Definition Object_prototype_keys : list string :=
  [ "constructor"; "__defineGetter__"; "__defineSetter__"; "hasOwnProperty";
    "__lookupGetter__"; "__lookupSetter__"; "isPrototypeOf";
    "propertyIsEnumerable"; "toString"; "valueOf"; "__proto__";
    "toLocaleString" ].

(** What [users[key]] evaluates to: an account, a member inherited from
    [Object.prototype] (a function or an object: truthy, and without a
    [password] field), or [undefined]. *)
Inductive UsersEntry :=
| account (name password : string)
| inherited_member
| no_entry.

Definition users_lookup (key : string) : UsersEntry :=
  match str_get key users with
  | Some (name, password) => account name password
  | None =>
      if existsb (String.eqb key) Object_prototype_keys
      then inherited_member else no_entry
  end.

(** The property key of a body field: an absent field is [undefined] and
    reads the key "undefined". *)
Definition property_key (field : option string) : string :=
  match field with Some s => s | None => "undefined" end.

(** The two answers of the route: 200 with [success: true] and the name
    as sent, or 401 with 'Invalid credentials'. *)
Inductive LoginResponse :=
| login_200 (username : option string)
| login_401.

(** [users[username] && users[username].password === password]; the body
    fields are strings or absent. *)
Definition login (username password : option string) : LoginResponse :=
  match users_lookup (property_key username) with
  | account _ stored =>
      match password with
      | Some given => if String.eqb stored given then login_200 username
                      else login_401
      | None => login_401
      end
  | inherited_member =>
      match password with
      | None => login_200 username
      | Some _ => login_401
      end
  | no_entry => login_401
  end.

(** ** The client's mirror of the server state ([ChatRoom.tsx]) *)

(** The React state fed by socket events. *)
Record ClientView := {
  c_messages : list Message;
  c_onlineUsers : list string;
  c_typingUsers : list string;
  c_readReceipts : NumMap (list string)
}.

Definition empty_view : ClientView :=
  {| c_messages := []; c_onlineUsers := []; c_typingUsers := [];
     c_readReceipts := [] |}.

(** [prev.filter(u => u !== user)] *)
Definition without (user : string) (l : list string) : list string :=
  filter (fun u => negb (String.eqb u user)) l.

(** [{ ...msg, content: newContent, edited: true, editedAt }] on the
    messages with the id, the others as they are. *)
Definition client_edit (messageId : Number) (newContent : string)
    (at_ : option string) (msg : Message) : Message :=
  if strict_eq (id msg) messageId
  then {| id := id msg; username := username msg; content := newContent;
          type := type msg; attachment := attachment msg;
          timestamp := timestamp msg; edited := true; editedAt := at_ |}
  else msg.

(** The update of the receipts on [message_read], on a copy of the map. *)
Definition client_read (messageId : Number) (readBy : string)
    (prev : NumMap (list string)) : NumMap (list string) :=
  let newReceipts :=
    if negb (num_has messageId prev) then num_set messageId [] prev
    else prev in
  match num_get messageId newReceipts with
  | Some readers => num_set messageId (Set_add readBy readers) newReceipts
  | None => newReceipts
  end.

(** The handler registered for each event; [user_joined] and [user_left]
    have none.  The desktop notification raised on [new_message] is not
    part of the view. *)
Definition client_on (e : Event) (v : ClientView) : ClientView :=
  match e with
  | chat_history history =>
      {| c_messages := history; c_onlineUsers := c_onlineUsers v;
         c_typingUsers := c_typingUsers v;
         c_readReceipts := c_readReceipts v |}
  | new_message message =>
      {| c_messages := c_messages v ++ [message];
         c_onlineUsers := c_onlineUsers v;
         c_typingUsers := c_typingUsers v;
         c_readReceipts := c_readReceipts v |}
  | online_users roster =>
      {| c_messages := c_messages v;
         c_onlineUsers :=
           map fst (filter (fun e => String.eqb (snd e) "online") roster);
         c_typingUsers := c_typingUsers v;
         c_readReceipts := c_readReceipts v |}
  | user_status_update user status =>
      {| c_messages := c_messages v;
         c_onlineUsers :=
           if String.eqb status "online"
           then without user (c_onlineUsers v) ++ [user]
           else without user (c_onlineUsers v);
         c_typingUsers := c_typingUsers v;
         c_readReceipts := c_readReceipts v |}
  | user_typing user =>
      {| c_messages := c_messages v; c_onlineUsers := c_onlineUsers v;
         c_typingUsers := without user (c_typingUsers v) ++ [user];
         c_readReceipts := c_readReceipts v |}
  | user_stopped_typing user =>
      {| c_messages := c_messages v; c_onlineUsers := c_onlineUsers v;
         c_typingUsers := without user (c_typingUsers v);
         c_readReceipts := c_readReceipts v |}
  | message_edited messageId newContent at_ =>
      {| c_messages := map (client_edit messageId newContent at_)
                           (c_messages v);
         c_onlineUsers := c_onlineUsers v;
         c_typingUsers := c_typingUsers v;
         c_readReceipts := c_readReceipts v |}
  | message_deleted messageId =>
      {| c_messages :=
           filter (fun msg => negb (strict_eq (id msg) messageId))
                  (c_messages v);
         c_onlineUsers := c_onlineUsers v;
         c_typingUsers := c_typingUsers v;
         c_readReceipts := c_readReceipts v |}
  | message_read messageId readBy =>
      {| c_messages := c_messages v; c_onlineUsers := c_onlineUsers v;
         c_typingUsers := c_typingUsers v;
         c_readReceipts := client_read messageId readBy (c_readReceipts v) |}
  | user_joined _ => v
  | user_left _ => v
  end.

(** The events are handled in the order they arrive. *)
Definition client_run (events : list Event) (v : ClientView) : ClientView :=
  fold_left (fun view e => client_on e view) events v.

(** The view of connection [c] after the server handled one input. *)
Definition client_after (c : SocketId) (i : Input) (st : State)
    (v : ClientView) : ClientView :=
  client_run (inbox c (snd (handle i st))) v.

(** ** Notions used to state the further properties *)


(** A presence value the server writes. *)
Definition status_ok (entry : string * string) : Prop :=
  snd entry = "online" \/ snd entry = "offline".

(** The three maps keyed by strings are maps. *)
Definition maps_wf (st : State) : Prop :=
  str_wf (connectedUsers st) /\ str_wf (userStatus st) /\
  str_wf (typingUsers st).

(** The user names announced by a run of emissions as having stopped
    typing. *)
Fixpoint stopped_users (out : list Emission) : list string :=
  match out with
  | [] => []
  | (_, user_stopped_typing u) :: r => u :: stopped_users r
  | _ :: r => stopped_users r
  end.

(** The inputs whose events are about messages and receipts. *)
Definition message_input (i : Input) : bool :=
  match i with
  | on_send_message _ _ _ _ | on_edit_message _ _ | on_delete_message _
  | on_mark_as_read _ | on_interval _ => true
  | _ => false
  end.

(** The class of a double under [===]: the two zeros are one class and
    [NaN] has none. *)
Definition eq_class (f : spec_float) : option spec_float :=
  match f with
  | S754_nan => None
  | S754_zero _ => Some (S754_zero false)
  | other => Some other
  end.

(** The client's copy of the store and of the receipts is the server's. *)
Definition in_sync (v : ClientView) (st : State) : Prop :=
  c_messages v = messages st /\ c_readReceipts v = readReceipts st.

(** The events whose client handlers write neither the messages nor the
    receipts. *)
Definition store_neutral (e : Event) : Prop :=
  match e with
  | chat_history _ | new_message _ | message_edited _ _ _
  | message_deleted _ | message_read _ _ => False
  | _ => True
  end.


(** An emission of the sweep: [user_stopped_typing] to everybody. *)
Definition stop_broadcast (e : Emission) : Prop :=
  exists user, e = (io_emit, user_stopped_typing user).

(** ** Further scenarios *)

(** [lev] is connected on two sockets. *)
Definition two_sockets : State :=
  fst (run [on_join "s1" "lev"; on_join "s2" "lev"] initial).

(** [lev] started typing at 1000 ms and [cin] at 2500 ms. *)
Definition both_typing : State :=
  fst (run [on_typing "s1" 1000 "lev"; on_typing "s2" 2500 "cin"] initial).

(** The store holds 100 messages. *)
Definition full_store : State :=
  fst (run (map (fun n => on_send_message (Z.of_nat n) 0.5%float "t"
                            (text_from "lev" "x"))
                (seq 0 100))
           initial).


(** A client that has just loaded the state of the server. *)
Definition view_of (st : State) : ClientView :=
  {| c_messages := messages st; c_onlineUsers := []; c_typingUsers := [];
     c_readReceipts := readReceipts st |}.

(* ================================================================== *)
(** * Part II. Properties                                              *)
(* ================================================================== *)

(** ** Strings *)

Section StringFacts.

Lemma startsWith_spec (p s : string) :
  startsWith p s = true <-> exists post, s = (p ++ post)%string.
Proof.
  revert s; induction p as [|a p IH]; intros [|b s]; simpl.
  - split; [exists EmptyString; reflexivity | reflexivity].
  - split; [intros _; eexists; reflexivity | reflexivity].
  - split; [discriminate | intros [post H]; discriminate].
  - rewrite andb_true_iff, Ascii.eqb_eq, IH. split.
    + intros [-> [post ->]]. now exists post.
    + intros [post H]. injection H as -> ->. split; [reflexivity|now exists post].
Qed.

Lemma includes_spec (s q : string) :
  includes s q = true <->
  exists pre post, s = (pre ++ q ++ post)%string.
Proof.
  induction s as [|c r IH]; simpl; rewrite orb_true_iff, startsWith_spec.
  - split.
    + intros [[post H]|H]; [|discriminate].
      exists EmptyString, post. exact H.
    + intros [[|a pre] [post H]]; [|discriminate].
      left. now exists post.
  - rewrite IH. split.
    + intros [[post H]|[pre [post H]]].
      * exists EmptyString, post. exact H.
      * exists (String c pre), post. simpl. now rewrite H.
    + intros [[|a pre] [post H]].
      * left. now exists post.
      * right. simpl in H. injection H as _ H. now exists pre, post.
Qed.

Lemma toLowerCase_app (a b : string) :
  toLowerCase (a ++ b)%string = (toLowerCase a ++ toLowerCase b)%string.
Proof. induction a as [|c a IH]; simpl; [reflexivity|now rewrite IH]. Qed.



Lemma N_of_ascii_inj (a b : ascii) : N_of_ascii a = N_of_ascii b -> a = b.
Proof.
  intros H. rewrite <- (ascii_N_embedding a), <- (ascii_N_embedding b).
  now rewrite H.
Qed.




End StringFacts.

(** ** Arrays *)

Section ArrayFacts.
Context {A : Type}.

Lemma slice_last_suffix (n : nat) (l : list A) :
  exists evicted,
    l = evicted ++ slice_last n l /\
    List.length evicted = (List.length l - n)%nat.
Proof.
  unfold slice_last. exists (firstn (List.length l - n) l). split.
  - symmetry. apply firstn_skipn.
  - rewrite length_firstn. lia.
Qed.

Lemma slice_last_length (n : nat) (l : list A) :
  List.length (slice_last n l) = Nat.min n (List.length l).
Proof. unfold slice_last. rewrite length_skipn. lia. Qed.

Lemma slice_last_short (n : nat) (l : list A) :
  (List.length l <= n)%nat -> slice_last n l = l.
Proof.
  intros H. unfold slice_last.
  replace (List.length l - n)%nat with O by lia. reflexivity.
Qed.

(** Trimming before or after more elements arrive gives the same tail. *)
Lemma slice_last_app (n : nat) (l more : list A) :
  slice_last n (slice_last n l ++ more) = slice_last n (l ++ more).
Proof.
  destruct (Nat.le_gt_cases (List.length l) n) as [H|H].
  - now rewrite (slice_last_short n l H).
  - unfold slice_last at 1 3.
    rewrite !length_app, slice_last_length.
    replace (Nat.min n (List.length l)) with n by lia.
    unfold slice_last.
    rewrite !skipn_app, !length_skipn.
    replace (n + List.length more - n - (List.length l - (List.length l - n)))%nat
      with (List.length l + List.length more - n - List.length l)%nat by lia.
    f_equal.
    rewrite skipn_skipn. f_equal. lia.
Qed.

Lemma findIndex_None (p : A -> bool) (l : list A) :
  findIndex p l = None <-> forall x, In x l -> p x = false.
Proof.
  induction l as [|y l IH]; simpl.
  - split; [intros _ x []|reflexivity].
  - destruct (p y) eqn:Hy.
    + split; [discriminate|]. intros H.
      rewrite (H y (or_introl eq_refl)) in Hy. discriminate.
    + destruct (findIndex p l) as [i|].
      * split; [discriminate|]. intros H.
        assert (Some i = None) as E by (apply IH; auto).
        discriminate E.
      * split; [|reflexivity]. intros _ x [<-|Hx]; [exact Hy|].
        now apply IH.
Qed.

(** What [findIndex] returns is the position of the first match. *)
Lemma findIndex_Some (p : A -> bool) (l : list A) (i : nat) :
  findIndex p l = Some i ->
  exists pre x post,
    l = pre ++ x :: post /\ List.length pre = i /\ p x = true /\
    (forall y, In y pre -> p y = false) /\
    nth_error l i = Some x /\ find p l = Some x.
Proof.
  revert i; induction l as [|y l IH]; simpl; intros i H; [discriminate|].
  destruct (p y) eqn:Hy.
  - injection H as <-. exists [], y, l. simpl. repeat split; auto.
    intros z [].
  - destruct (findIndex p l) as [j|]; [|discriminate].
    injection H as <-.
    destruct (IH j eq_refl) as [pre [x [post [-> [<- [Hx [Hpre [Hn Hf]]]]]]]].
    exists (y :: pre), x, post. simpl. repeat split; auto.
    intros z [<-|Hz]; auto.
Qed.

Lemma find_None_findIndex (p : A -> bool) (l : list A) :
  find p l = None -> findIndex p l = None.
Proof.
  intros H. apply findIndex_None. intros x Hx.
  exact (find_none p l H x Hx).
Qed.

Lemma splice1_middle (pre post : list A) (x : A) :
  splice1 (List.length pre) (pre ++ x :: post) = pre ++ post.
Proof. induction pre as [|y pre IH]; simpl; [reflexivity|now rewrite IH]. Qed.

Lemma update_at_middle (f : A -> A) (pre post : list A) (x : A) :
  update_at (List.length pre) f (pre ++ x :: post) = pre ++ f x :: post.
Proof. induction pre as [|y pre IH]; simpl; [reflexivity|now rewrite IH]. Qed.

End ArrayFacts.

(** ** Maps and sets *)

Section MapFacts.
Context {K V : Type}.
Variable same : K -> K -> bool.
Variable canon : K -> K.
(** The key stored for [k] is found again when [k] is looked up. *)
Hypothesis same_canon : forall k, same (canon k) k = true.

Lemma Map_get_set_same (k : K) (v : V) (m : list (K * V)) :
  Map_get same k (Map_set same canon k v m) = Some v.
Proof.
  induction m as [|[k' v'] r IH]; simpl.
  - now rewrite same_canon.
  - destruct (same k' k) eqn:E; simpl; rewrite E; auto.
Qed.

Lemma Map_set_set (k : K) (v w : V) (m : list (K * V)) :
  Map_set same canon k w (Map_set same canon k v m)
  = Map_set same canon k w m.
Proof.
  induction m as [|[k' v'] r IH]; simpl.
  - now rewrite same_canon.
  - destruct (same k' k) eqn:E; simpl; rewrite E; [reflexivity|].
    now rewrite IH.
Qed.

Lemma Map_has_set_same (k : K) (v : V) (m : list (K * V)) :
  Map_has same k (Map_set same canon k v m) = true.
Proof. unfold Map_has. now rewrite Map_get_set_same. Qed.

(** Writing under [k] leaves alone every key that [k] does not match
    and that does not match the key stored for [k]. *)
Lemma Map_get_set_other (a k : K) (v : V) (m : list (K * V)) :
  (forall stored, same stored k = true -> same stored a = false) ->
  (forall stored, same stored a = true -> same stored k = false) ->
  Map_get same a (Map_set same canon k v m) = Map_get same a m.
Proof.
  intros Hka Hak. induction m as [|[k' v'] r IH]; simpl.
  - now rewrite (Hka (canon k) (same_canon k)).
  - destruct (same k' k) eqn:E; simpl.
    + now rewrite (Hka k' E).
    + now rewrite IH.
Qed.

End MapFacts.

Lemma SameValueZero_normalize (k : Number) :
  SameValueZero (normalize_zero k) k = true.
Proof.
  unfold normalize_zero, SameValueZero, is_NaN.
  destruct (PrimFloat.eqb PrimFloat.zero k) eqn:E.
  - now rewrite E.
  - destruct (PrimFloat.eqb k k); reflexivity.
Qed.

Lemma num_get_set_same {V} (k : Number) (v : V) (m : NumMap V) :
  num_get k (num_set k v m) = Some v.
Proof. apply Map_get_set_same, SameValueZero_normalize. Qed.

Lemma num_set_set {V} (k : Number) (v w : V) (m : NumMap V) :
  num_set k w (num_set k v m) = num_set k w m.
Proof. apply Map_set_set, SameValueZero_normalize. Qed.

Lemma Set_add_idempotent (u : string) (s : list string) :
  Set_add u (Set_add u s) = Set_add u s.
Proof.
  unfold Set_add. destruct (existsb (String.eqb u) s) eqn:E.
  - now rewrite E.
  - rewrite existsb_app. simpl. now rewrite String.eqb_refl, orb_true_r.
Qed.

Lemma Set_add_In (u : string) (s : list string) : In u (Set_add u s).
Proof.
  unfold Set_add. destruct (existsb (String.eqb u) s) eqn:E.
  - apply existsb_exists in E. destruct E as [x [Hx E]].
    apply String.eqb_eq in E. now subst.
  - apply in_or_app. right. now left.
Qed.

(** ** Maps keyed by strings *)

Section StrMapFacts.
Context {V : Type}.
Implicit Types (m : StrMap V) (k a : string) (v : V).

Local Ltac str_unfold := unfold str_get, str_set, str_delete, str_wf in *.

Lemma str_get_In k v m : str_get k m = Some v -> In (k, v) m.
Proof.
  str_unfold. induction m as [|[k' v'] r IH]; simpl; [discriminate|].
  destruct (String.eqb_spec k' k) as [->|_].
  - intros [= ->]. now left.
  - intros H. right. now apply IH.
Qed.

Lemma str_wf_In_get k v m : str_wf m -> In (k, v) m -> str_get k m = Some v.
Proof.
  str_unfold. induction m as [|[k' v'] r IH]; simpl; [intros _ []|].
  intros [Hk Hr] [[= -> ->]|Hin].
  - now rewrite String.eqb_refl.
  - destruct (String.eqb_spec k' k) as [->|_]; [|now apply IH].
    rewrite (IH Hr Hin) in Hk. discriminate.
Qed.

Lemma str_get_set a k v m :
  str_get a (str_set k v m)
  = if String.eqb k a then Some v else str_get a m.
Proof.
  str_unfold. induction m as [|[k' v'] r IH]; simpl; [reflexivity|].
  destruct (String.eqb_spec k' k) as [->|Hk]; simpl.
  - now destruct (String.eqb k a).
  - rewrite IH. destruct (String.eqb_spec k' a) as [->|_]; [|reflexivity].
    destruct (String.eqb_spec k a) as [->|_]; [now elim Hk|reflexivity].
Qed.

Lemma str_get_delete_None a k m :
  str_get a m = None -> str_get a (str_delete k m) = None.
Proof.
  str_unfold. induction m as [|[k' v'] r IH]; simpl; [reflexivity|].
  destruct (String.eqb k' a) eqn:Ea; [discriminate|]. intros H.
  destruct (String.eqb k' k); simpl; [exact H|].
  rewrite Ea. now apply IH.
Qed.

Lemma str_get_delete a k m :
  str_wf m ->
  str_get a (str_delete k m)
  = if String.eqb k a then None else str_get a m.
Proof.
  str_unfold. induction m as [|[k' v'] r IH]; simpl.
  - now destruct (String.eqb k a).
  - intros [Hk Hr]. destruct (String.eqb_spec k' k) as [->|Hne]; simpl.
    + destruct (String.eqb_spec k a) as [->|_]; [exact Hk|reflexivity].
    + rewrite (IH Hr). destruct (String.eqb_spec k' a) as [->|_]; [|reflexivity].
      destruct (String.eqb_spec k a) as [->|_]; [now elim Hne|reflexivity].
Qed.

Lemma str_get_filter_None (f : string * V -> bool) a m :
  str_get a m = None -> str_get a (filter f m) = None.
Proof.
  str_unfold. induction m as [|[k' v'] r IH]; simpl; [reflexivity|].
  destruct (String.eqb k' a) eqn:Ea; [discriminate|]. intros H.
  destruct (f (k', v')); simpl; [rewrite Ea|]; now apply IH.
Qed.

Lemma str_wf_set k v m : str_wf m -> str_wf (str_set k v m).
Proof.
  str_unfold. induction m as [|[k' v'] r IH]; simpl; [auto|].
  intros [Hk Hr]. destruct (String.eqb_spec k' k) as [->|Hne]; simpl.
  - auto.
  - split; [|now apply IH].
    pose proof (str_get_set k' k v r) as E. str_unfold. rewrite E.
    destruct (String.eqb_spec k k') as [->|_]; [now elim Hne|exact Hk].
Qed.

Lemma str_wf_delete k m : str_wf m -> str_wf (str_delete k m).
Proof.
  str_unfold. induction m as [|[k' v'] r IH]; simpl; [auto|].
  intros [Hk Hr]. destruct (String.eqb k' k); simpl; [exact Hr|].
  split; [|now apply IH]. now apply str_get_delete_None.
Qed.

Lemma str_wf_filter (f : string * V -> bool) m :
  str_wf m -> str_wf (filter f m).
Proof.
  str_unfold. induction m as [|[k' v'] r IH]; simpl; [auto|].
  intros [Hk Hr]. destruct (f (k', v')); simpl; [|now apply IH].
  split; [|now apply IH]. now apply str_get_filter_None.
Qed.

Lemma str_wf_app_head (done todo : StrMap V) k v :
  str_wf (done ++ (k, v) :: todo) ->
  str_delete k (done ++ (k, v) :: todo) = done ++ todo.
Proof.
  str_unfold. induction done as [|[k' v'] r IH]; simpl.
  - now rewrite String.eqb_refl.
  - intros [Hk Hr]. destruct (String.eqb_spec k' k) as [->|_].
    + assert (str_get k (r ++ (k, v) :: todo) = Some v) as E.
      { apply str_wf_In_get; [exact Hr|]. apply in_or_app. right. now left. }
      str_unfold. rewrite E in Hk. discriminate.
    + f_equal. now apply IH.
Qed.

End StrMapFacts.

(** ** The dispatcher *)

Lemma run_cons_fst (i : Input) (rest : list Input) (st : State) :
  fst (run (i :: rest) st) = fst (run rest (fst (handle i st))).
Proof.
  simpl. destruct (handle i st) as [st1 out1]. simpl.
  now destruct (run rest st1).
Qed.


(** ** The message store: retention *)

Lemma push_and_trim_slice (m : Message) (ms : list Message) :
  push_and_trim m ms = slice_last 100 (ms ++ [m]).
Proof.
  unfold push_and_trim.
  destruct (Nat.ltb_spec 100 (List.length (ms ++ [m]))) as [H|H].
  - reflexivity.
  - symmetry. now apply slice_last_short.
Qed.

Lemma send_message_messages (a : SendArgs) (st : State) :
  messages (fst (handle (send_input a) st))
  = push_and_trim (built a) (messages st).
Proof. destruct a as [[[now rnd] iso] data]. reflexivity. Qed.

(** After at least one [send_message] the store is the last 100 of
    everything it held or was sent. *)
Lemma run_sends_messages (a : SendArgs) (rest : list SendArgs) (st : State) :
  messages (fst (run (map send_input (a :: rest)) st))
  = slice_last 100 (messages st ++ map built (a :: rest)).
Proof.
  revert a st. induction rest as [|b rest IH]; intros a st.
  - change (map send_input [a]) with [send_input a].
    rewrite run_cons_fst. change (run [] ?s) with (s, @nil Emission).
    cbn [fst map]. now rewrite send_message_messages, push_and_trim_slice.
  - change (map send_input (a :: b :: rest))
      with (send_input a :: map send_input (b :: rest)).
    rewrite run_cons_fst, IH, send_message_messages, push_and_trim_slice.
    rewrite slice_last_app.
    change (map built (a :: b :: rest)) with ([built a] ++ map built (b :: rest)).
    now rewrite app_assoc.
Qed.

(** C1. Whatever the store holds, after any non-empty sequence of
    [send_message] calls it holds at most 100 messages, and it is what is
    left of "old store followed by the sent messages, in order" once the
    oldest ones are dropped from the front: the dropped messages are a
    prefix, the survivors keep their order, and exactly the excess over
    100 is dropped. *)
Theorem send_message_bounded_fifo
    (st : State) (a : SendArgs) (rest : list SendArgs) :
  let everything := messages st ++ map built (a :: rest) in
  let final := messages (fst (run (map send_input (a :: rest)) st)) in
  (List.length final <= 100)%nat /\
  exists evicted,
    everything = evicted ++ final /\
    List.length evicted = (List.length everything - 100)%nat.
Proof.
  intros everything final. subst final.
  rewrite run_sends_messages. fold everything. split.
  - rewrite slice_last_length. lia.
  - apply slice_last_suffix.
Qed.

(** ** The message store: edit and delete *)

(** The three ways [edit_message] can go, by the first message carrying
    the id. *)
Lemma edit_message_cases (iso : string) (data : EditData) (st : State) :
  match find (has_id (e_messageId data)) (messages st) with
  | Some m =>
      if String.eqb (username m) (e_username data) then
        exists pre post,
          messages st = pre ++ m :: post /\
          (forall x, In x pre -> has_id (e_messageId data) x = false) /\
          edit_message iso data st
          = (set_messages
               (pre ++ apply_edit (e_newContent data) iso m :: post) st,
             [ (io_emit, message_edited (e_messageId data)
                                        (e_newContent data) (Some iso)) ])
      else edit_message iso data st = (st, [])
  | None => edit_message iso data st = (st, [])
  end.
Proof.
  unfold edit_message.
  fold (has_id (e_messageId data)).
  destruct (findIndex (has_id (e_messageId data)) (messages st)) as [i|] eqn:E.
  - destruct (findIndex_Some _ _ _ E)
      as [pre [x [post [Hl [Hi [Hx [Hpre [Hn Hf]]]]]]]].
    rewrite Hf, Hn.
    destruct (String.eqb (username x) (e_username data)); [|reflexivity].
    exists pre, post. repeat split; auto.
    rewrite Hl at 1. subst i. now rewrite update_at_middle.
  - destruct (find (has_id (e_messageId data)) (messages st)) as [m|] eqn:F;
      [|reflexivity].
    apply find_some in F. destruct F as [Hin Hm].
    rewrite (proj1 (findIndex_None _ _) E m Hin) in Hm. discriminate.
Qed.

(** C2. [edit_message] changes nothing and emits nothing unless the
    message addressed by the id exists and was written by the requester:
    when no stored message carries the id, or the one that does has
    another author, state and store are exactly what they were. *)
Theorem edit_message_unauthorized_noop
    (iso : string) (data : EditData) (st : State) :
  (forall m, find (has_id (e_messageId data)) (messages st) = Some m ->
             username m <> e_username data) ->
  edit_message iso data st = (st, []).
Proof.
  intros H. pose proof (edit_message_cases iso data st) as C.
  destruct (find (has_id (e_messageId data)) (messages st)) as [m|]; [|exact C].
  destruct (String.eqb_spec (username m) (e_username data)) as [E|_];
    [|exact C].
  now elim (H m eq_refl).
Qed.

(** A change of the store by [edit_message] implies a stored message with
    that id whose author is the requester. *)
Lemma edit_message_change_authorized
    (iso : string) (data : EditData) (st : State) :
  edit_message iso data st <> (st, []) ->
  exists m, In m (messages st) /\ has_id (e_messageId data) m = true /\
            username m = e_username data.
Proof.
  intros H. pose proof (edit_message_cases iso data st) as C.
  destruct (find (has_id (e_messageId data)) (messages st)) as [m|] eqn:F;
    [|contradiction].
  destruct (String.eqb_spec (username m) (e_username data)) as [E|_];
    [|contradiction].
  apply find_some in F. exists m. tauto.
Qed.

(** The three ways [delete_message] can go. *)
Lemma delete_message_cases (data : DeleteData) (st : State) :
  match find (has_id (d_messageId data)) (messages st) with
  | Some m =>
      if String.eqb (username m) (d_username data) then
        exists pre post,
          messages st = pre ++ m :: post /\
          (forall x, In x pre -> has_id (d_messageId data) x = false) /\
          delete_message data st
          = (set_messages (pre ++ post) st,
             [ (io_emit, message_deleted (d_messageId data)) ])
      else delete_message data st = (st, [])
  | None => delete_message data st = (st, [])
  end.
Proof.
  unfold delete_message.
  fold (has_id (d_messageId data)).
  destruct (findIndex (has_id (d_messageId data)) (messages st)) as [i|] eqn:E.
  - destruct (findIndex_Some _ _ _ E)
      as [pre [x [post [Hl [Hi [Hx [Hpre [Hn Hf]]]]]]]].
    rewrite Hf, Hn.
    destruct (String.eqb (username x) (d_username data)); [|reflexivity].
    exists pre, post. repeat split; auto.
    rewrite Hl at 1. subst i. now rewrite splice1_middle.
  - destruct (find (has_id (d_messageId data)) (messages st)) as [m|] eqn:F;
      [|reflexivity].
    apply find_some in F. destruct F as [Hin Hm].
    rewrite (proj1 (findIndex_None _ _) E m Hin) in Hm. discriminate.
Qed.

(** C3. When the message addressed by the id was written by the
    requester, [delete_message] removes that one entry and nothing else
    (the store [pre ++ m :: post] becomes [pre ++ post]) and broadcasts
    [message_deleted]; when no message carries the id or its author is
    somebody else, nothing is removed, the state is unchanged and no
    event is emitted. *)
Theorem delete_message_one_or_none (data : DeleteData) (st : State) :
  (forall m,
     find (has_id (d_messageId data)) (messages st) = Some m ->
     username m = d_username data ->
     exists pre post,
       messages st = pre ++ m :: post /\
       has_id (d_messageId data) m = true /\
       messages (fst (delete_message data st)) = pre ++ post /\
       S (List.length (messages (fst (delete_message data st))))
       = List.length (messages st) /\
       snd (delete_message data st)
       = [ (io_emit, message_deleted (d_messageId data)) ])
  /\
  ((forall m,
      find (has_id (d_messageId data)) (messages st) = Some m ->
      username m <> d_username data) ->
   delete_message data st = (st, [])).
Proof.
  pose proof (delete_message_cases data st) as C.
  destruct (find (has_id (d_messageId data)) (messages st)) as [m|] eqn:F.
  - destruct (String.eqb_spec (username m) (d_username data)) as [E|E].
    + split.
      * intros m' [= <-] _. destruct C as [pre [post [Hl [Hpre Hd]]]].
        exists pre, post. rewrite Hd. cbn [fst snd messages set_messages].
        repeat split; auto.
        -- apply find_some in F. tauto.
        -- rewrite Hl, !length_app. simpl. lia.
      * intros H. now elim (H m eq_refl).
    + split; [|intros _; exact C].
      intros m' [= <-] E'. now elim E.
  - split; [intros m' [=]|intros _; exact C].
Qed.

(** ** The typing tracker *)

(** The loop of the sweep, started anywhere in the map: the entries
    already visited and kept are [done], those still to visit [todo]. *)
Lemma sweep_fold (now : Z) (todo done : StrMap Z) (out : list Emission) :
  str_wf (done ++ todo) ->
  fold_left (sweep_entry now) todo (done ++ todo, out)
  = (done ++ filter (fun e => negb (expired now e)) todo,
     out ++ map stopped_typing_broadcast (filter (expired now) todo)).
Proof.
  revert done out. induction todo as [|[u t] todo IH]; intros done out Hwf.
  - simpl. now rewrite !app_nil_r.
  - cbn [fold_left filter].
    change (sweep_entry now (done ++ (u, t) :: todo, out) (u, t))
      with (if expired now (u, t)
            then (str_delete u (done ++ (u, t) :: todo),
                  out ++ [stopped_typing_broadcast (u, t)])
            else (done ++ (u, t) :: todo, out)).
    destruct (expired now (u, t)) eqn:E; cbn [negb map].
    + rewrite (str_wf_app_head done todo u t Hwf).
      rewrite IH.
      * now rewrite <- app_assoc.
      * rewrite <- (str_wf_app_head done todo u t Hwf).
        now apply str_wf_delete.
    + replace (done ++ (u, t) :: todo) with ((done ++ [(u, t)]) ++ todo) in *
        by now rewrite <- app_assoc.
      rewrite IH by exact Hwf. now rewrite <- app_assoc.
Qed.

(** On a map the sweep keeps the entries that are not expired and
    announces the others, in insertion order. *)
Lemma typing_sweep_filter (now : Z) (st : State) :
  str_wf (typingUsers st) ->
  typing_sweep now st
  = (set_typingUsers
       (filter (fun e => negb (expired now e)) (typingUsers st)) st,
     map stopped_typing_broadcast (filter (expired now) (typingUsers st))).
Proof.
  intros Hwf. unfold typing_sweep, sweep_typing.
  pose proof (sweep_fold now (typingUsers st) [] [] Hwf) as E.
  cbn [app] in E.
  match goal with
  | |- context [fold_left ?f ?l ?a] =>
      replace (fold_left f l a)
        with (filter (fun e => negb (expired now e)) (typingUsers st),
              map stopped_typing_broadcast
                  (filter (expired now) (typingUsers st)))
        by (symmetry; exact E)
  end.
  reflexivity.
Qed.

(** Every handler keeps [typingUsers] a map. *)
Lemma handle_typing_wf (i : Input) (st : State) :
  str_wf (typingUsers st) -> str_wf (typingUsers (fst (handle i st))).
Proof.
  intros Hwf. destruct i; cbn [handle].
  - exact Hwf.
  - now apply str_wf_delete.
  - unfold edit_message.
    destruct (findIndex _ _); [|exact Hwf].
    destruct (nth_error _ _); [|exact Hwf].
    destruct (String.eqb _ _); exact Hwf.
  - unfold delete_message.
    destruct (findIndex _ _); [|exact Hwf].
    destruct (nth_error _ _); [|exact Hwf].
    destruct (String.eqb _ _); exact Hwf.
  - now apply str_wf_set.
  - now apply str_wf_delete.
  - exact Hwf.
  - unfold disconnect.
    destruct (str_get self (connectedUsers st)) as [[|c r]|]; try exact Hwf.
    now apply str_wf_delete.
  - rewrite typing_sweep_filter by exact Hwf. now apply str_wf_filter.
Qed.

Lemma run_typing_wf (inputs : list Input) (st : State) :
  str_wf (typingUsers st) -> str_wf (typingUsers (fst (run inputs st))).
Proof.
  revert st. induction inputs as [|i rest IH]; intros st Hwf; [exact Hwf|].
  rewrite run_cons_fst. now apply IH, handle_typing_wf.
Qed.

(** In every state the server can reach, [typingUsers] is a map. *)
Lemma reachable_typing_wf (inputs : list Input) :
  str_wf (typingUsers (fst (run inputs initial))).
Proof. apply run_typing_wf. exact I. Qed.

(** The [typing] handler records the clock reading under the user. *)
Lemma typing_records (self : SocketId) (now : Z) (user : string) (st : State) :
  str_get user (typingUsers (fst (typing self now user st))) = Some now.
Proof. cbn. rewrite str_get_set. now rewrite String.eqb_refl. Qed.

(** C4 (as the code has it). An entry recorded at [T] and still in the
    map is removed, with a [user_stopped_typing] broadcast for its user,
    by a sweep run strictly later than [T + 3000]; a sweep run at
    [T + 3000] or earlier (so at [T + 2999]) keeps it and announces
    nothing for that user. *)
Theorem typing_sweep_expiry (st : State) (user : string) (T now : Z) :
  str_wf (typingUsers st) ->
  str_get user (typingUsers st) = Some T ->
  (T + 3000 < now ->
   str_has user (typingUsers (fst (typing_sweep now st))) = false /\
   In (io_emit, user_stopped_typing user) (snd (typing_sweep now st)))
  /\
  (now <= T + 3000 ->
   str_get user (typingUsers (fst (typing_sweep now st))) = Some T /\
   ~ In (io_emit, user_stopped_typing user) (snd (typing_sweep now st))).
Proof.
  intros Hwf Hget. rewrite typing_sweep_filter by exact Hwf.
  cbn [fst snd typingUsers set_typingUsers].
  pose proof (str_get_In _ _ _ Hget) as Hin.
  split; intros Hnow.
  - split.
    + unfold str_has, Map_has.
      destruct (Map_get String.eqb user
                  (filter (fun e => negb (expired now e)) (typingUsers st)))
        as [v|] eqn:G; [|reflexivity].
      apply (@str_get_In Z) in G. apply filter_In in G. destruct G as [G1 G2].
      rewrite (str_wf_In_get _ _ _ Hwf G1) in Hget. injection Hget as ->.
      unfold expired in G2. cbn [snd] in G2.
      apply negb_true_iff, Z.ltb_ge in G2. lia.
    + apply in_map_iff. exists (user, T). split; [reflexivity|].
      apply filter_In. split; [exact Hin|].
      unfold expired. cbn [snd]. apply Z.ltb_lt. lia.
  - split.
    + apply str_wf_In_get; [now apply str_wf_filter|].
      apply filter_In. split; [exact Hin|].
      unfold expired. cbn [snd]. apply negb_true_iff, Z.ltb_ge. lia.
    + intros H. apply in_map_iff in H. destruct H as [[u t] [E H]].
      injection E as ->. apply filter_In in H. destruct H as [H1 H2].
      rewrite (str_wf_In_get _ _ _ Hwf H1) in Hget. injection Hget as ->.
      unfold expired in H2. cbn [snd] in H2. apply Z.ltb_lt in H2. lia.
Qed.

(** ** Search *)



(** *** The two models of the search test agree below 256 *)

Lemma lower_unit_code (c : ascii) :
  lower_unit (N_of_ascii c) = N_of_ascii (toLowerCase_char c).
Proof.
  unfold toLowerCase_char, lower_unit.
  pose proof (N_ascii_bounded c) as Hb.
  destruct (_ || _ || _)%bool eqn:E; [|reflexivity].
  symmetry. apply N_ascii_embedding.
  apply orb_true_iff in E. destruct E as [E|E];
    [apply orb_true_iff in E; destruct E as [E|E]|];
    apply andb_true_iff in E; destruct E as [_ E];
    apply N.leb_le in E; lia.
Qed.

Lemma units_of_alphabet (s : string) : forallb in_alphabet (units_of s) = true.
Proof.
  induction s as [|c r IH]; cbn [units_of forallb]; [reflexivity|].
  rewrite IH, andb_true_r. unfold in_alphabet.
  pose proof (N_ascii_bounded c) as Hb. apply N.ltb_lt in Hb.
  now rewrite Hb.
Qed.

Lemma lower_from_units (before : list N) (s : string) :
  lower_from before (units_of s) = units_of (toLowerCase s).
Proof.
  revert before. induction s as [|c r IH]; intros before;
    cbn [units_of lower_from toLowerCase]; [reflexivity|].
  rewrite IH, lower_unit_code.
  pose proof (N_ascii_bounded c) as Hb.
  destruct (N.eqb_spec (N_of_ascii c) capital_sigma) as [E|_];
    [|reflexivity].
  unfold capital_sigma in E. lia.
Qed.

Lemma js_toLowerCase_units (s : string) :
  js_toLowerCase (units_of s) = Some (units_of (toLowerCase s)).
Proof.
  unfold js_toLowerCase. now rewrite units_of_alphabet, lower_from_units.
Qed.

Lemma js_startsWith_units (p s : string) :
  js_startsWith (units_of p) (units_of s) = startsWith p s.
Proof.
  revert s. induction p as [|a p IH]; intros [|b s];
    cbn [units_of js_startsWith startsWith]; try reflexivity.
  rewrite IH. f_equal.
  destruct (Ascii.eqb_spec a b) as [->|Hne].
  - apply N.eqb_refl.
  - apply N.eqb_neq. intros E. apply Hne. now apply N_of_ascii_inj.
Qed.

Lemma js_includes_units (s q : string) :
  js_includes (units_of s) (units_of q) = includes s q.
Proof.
  induction s as [|c r IH]; cbn [units_of js_includes includes].
  - change (@nil N) with (units_of EmptyString).
    now rewrite js_startsWith_units.
  - rewrite IH. f_equal.
    change (N_of_ascii c :: units_of r) with (units_of (String c r)).
    apply js_startsWith_units.
Qed.

(** On the strings of the 8-bit model the test on UTF-16 strings is
    [search_match]. *)
Lemma search_match_units (q : string) (m : Message) :
  js_search_match (units_of q) (units_of (content m)) (units_of (username m))
  = Some (search_match q m).
Proof.
  unfold js_search_match, js_test, search_match.
  rewrite !js_toLowerCase_units, !js_includes_units.
  now destruct (includes (toLowerCase (content m)) (toLowerCase q)).
Qed.


(** ** Join *)

Lemma str_set_In {V} (k : string) (v : V) (m : StrMap V) :
  In (k, v) (str_set k v m).
Proof.
  unfold str_set. induction m as [|[k' v'] r IH]; simpl; [now left|].
  destruct (String.eqb_spec k' k) as [->|_]; [now left|now right].
Qed.

(** C6 (as the code has it). What each connection receives from a join:
    the joiner gets the presence update, the whole store and the roster
    of online users (which lists the joiner); every other connection gets
    the presence update and the join notice, and neither the store nor
    the roster. *)
Theorem join_deliveries
    (self : SocketId) (user : string) (st : State) (c : SocketId) :
  inbox c (snd (join self user st))
  = (if String.eqb c self
     then [ user_status_update user "online";
            chat_history (messages st);
            online_users (roster_after_join user st) ]
     else [ user_status_update user "online"; user_joined user ])
  /\ In (user, "online") (roster_after_join user st).
Proof.
  split.
  - unfold join, inbox. cbn [snd filter fst receives map].
    destruct (String.eqb c self); reflexivity.
  - unfold roster_after_join. apply filter_In. split.
    + apply str_set_In.
    + reflexivity.
Qed.

(** ** Read receipts *)

(** The key is present when [mark_as_read] reads the set back. *)
Lemma mark_as_read_key_present (mid : Number) (rr : NumMap (list string)) :
  num_get mid (if negb (num_has mid rr) then num_set mid [] rr else rr)
  = Some (readers_of mid rr).
Proof.
  unfold num_has, Map_has, readers_of.
  fold (@num_get (list string)).
  destruct (num_get mid rr) as [s|] eqn:G; cbn [negb].
  - exact G.
  - apply num_get_set_same.
Qed.

(** The receipts after [mark_as_read], in closed form. *)
Lemma mark_as_read_receipts (data : ReadData) (st : State) :
  readReceipts (fst (mark_as_read data st))
  = num_set (r_messageId data)
      (Set_add (r_username data)
               (readers_of (r_messageId data) (readReceipts st)))
      (readReceipts st).
Proof.
  unfold mark_as_read. cbn [fst readReceipts set_readReceipts].
  rewrite mark_as_read_key_present.
  unfold num_has, Map_has, readers_of.
  fold (@num_get (list string)).
  destruct (num_get (r_messageId data) (readReceipts st)); cbn [negb].
  - reflexivity.
  - apply num_set_set.
Qed.

Lemma mark_as_read_state (data : ReadData) (st : State) :
  fst (mark_as_read data st)
  = set_readReceipts (readReceipts (fst (mark_as_read data st))) st.
Proof. reflexivity. Qed.

(** C7 (as the code has it). [mark_as_read] never looks at the message
    store: whether or not a message carries the id, the user is added to
    the set kept under that id (created when there is none), the event
    [message_read] goes to everybody, and the store is left as it was. *)
Theorem mark_as_read_records (data : ReadData) (st : State) :
  messages (fst (mark_as_read data st)) = messages st /\
  num_get (r_messageId data) (readReceipts (fst (mark_as_read data st)))
  = Some (Set_add (r_username data)
                  (readers_of (r_messageId data) (readReceipts st))) /\
  In (r_username data)
     (readers_of (r_messageId data)
                 (readReceipts (fst (mark_as_read data st)))) /\
  snd (mark_as_read data st)
  = [ (io_emit, message_read (r_messageId data) (r_username data)) ].
Proof.
  assert (num_get (r_messageId data)
            (readReceipts (fst (mark_as_read data st)))
          = Some (Set_add (r_username data)
                    (readers_of (r_messageId data) (readReceipts st)))) as G.
  { rewrite mark_as_read_receipts. apply num_get_set_same. }
  repeat split.
  - exact G.
  - unfold readers_of at 1. rewrite G. apply Set_add_In.
Qed.

(** C8. Marking the same message as read by the same user a second time
    leaves the whole state, and so the set of readers, as the first call
    left it. *)
Theorem mark_as_read_idempotent (data : ReadData) (st : State) :
  fst (mark_as_read data (fst (mark_as_read data st)))
  = fst (mark_as_read data st)
  /\ readers_of (r_messageId data)
       (readReceipts (fst (mark_as_read data (fst (mark_as_read data st)))))
     = readers_of (r_messageId data)
         (readReceipts (fst (mark_as_read data st))).
Proof.
  assert (readReceipts (fst (mark_as_read data (fst (mark_as_read data st))))
          = readReceipts (fst (mark_as_read data st))) as E.
  { rewrite (mark_as_read_receipts data (fst (mark_as_read data st))).
    rewrite (mark_as_read_receipts data st).
    unfold readers_of at 1. rewrite num_get_set_same.
    now rewrite Set_add_idempotent, num_set_set. }
  split.
  - rewrite (mark_as_read_state data (fst (mark_as_read data st))), E.
    reflexivity.
  - now rewrite E.
Qed.

(** [delete_message] never writes to [readReceipts]. *)
Lemma delete_message_readReceipts (data : DeleteData) (st : State) :
  readReceipts (fst (delete_message data st)) = readReceipts st.
Proof.
  unfold delete_message.
  destruct (findIndex _ _); [|reflexivity].
  destruct (nth_error _ _); [|reflexivity].
  destruct (String.eqb _ _); reflexivity.
Qed.

(** C10. A delete that succeeds (it broadcast [message_deleted]) on a
    message that has readers leaves the receipts alone: the entry of the
    deleted id is still there with the same readers, and so is every
    other entry. *)
Theorem delete_message_keeps_receipts
    (data : DeleteData) (st : State) (readers : list string) :
  num_get (d_messageId data) (readReceipts st) = Some readers ->
  readers <> [] ->
  snd (delete_message data st)
  = [ (io_emit, message_deleted (d_messageId data)) ] ->
  num_has (d_messageId data) (readReceipts (fst (delete_message data st)))
  = true /\
  num_get (d_messageId data) (readReceipts (fst (delete_message data st)))
  = Some readers /\
  (forall other,
     num_get other (readReceipts (fst (delete_message data st)))
     = num_get other (readReceipts st)) /\
  readReceipts (fst (delete_message data st)) = readReceipts st.
Proof.
  intros G _ _. rewrite delete_message_readReceipts.
  unfold num_has, Map_has. fold (@num_get (list string)). rewrite G.
  repeat split.
Qed.

(** ** Message ids *)

Lemma ids_distinct_same_ids (ms ms' : list Message) :
  map id ms = map id ms' -> ids_distinct ms -> ids_distinct ms'.
Proof.
  revert ms'. induction ms as [|m r IH]; intros [|m' r'] E; try discriminate.
  - auto.
  - cbn [map] in E. injection E as Em Er. intros [Hm Hr]. split.
    + intros x Hx. rewrite <- Em.
      assert (In (id x) (map id r)) as Hi
        by (rewrite Er; now apply in_map).
      apply in_map_iff in Hi. destruct Hi as [y [Ey Hy]].
      rewrite <- Ey. now apply Hm.
    + now apply IH.
Qed.

Lemma ids_distinct_app_one (ms : list Message) (m : Message) :
  ids_distinct ms ->
  (forall x, In x ms -> strict_eq (id x) (id m) = false) ->
  ids_distinct (ms ++ [m]).
Proof.
  induction ms as [|y r IH]; cbn [app ids_distinct].
  - intros _ _. split; [intros x []|exact I].
  - intros [Hy Hr] Hf. split.
    + intros x Hx. apply in_app_or in Hx. destruct Hx as [Hx|[<-|[]]].
      * now apply Hy.
      * apply Hf. now left.
    + apply IH; [exact Hr|]. intros x Hx. apply Hf. now right.
Qed.

Lemma ids_distinct_skipn (n : nat) (ms : list Message) :
  ids_distinct ms -> ids_distinct (skipn n ms).
Proof.
  revert ms. induction n as [|n IH]; intros [|m r]; cbn [skipn]; auto.
  intros [_ Hr]. now apply IH.
Qed.

Lemma splice1_In {A} (i : nat) (l : list A) (x : A) :
  In x (splice1 i l) -> In x l.
Proof.
  revert i. induction l as [|y r IH]; intros [|i]; cbn [splice1]; auto.
  - intros H. now right.
  - intros [<-|H]; [now left|right; eauto].
Qed.

Lemma ids_distinct_splice1 (i : nat) (ms : list Message) :
  ids_distinct ms -> ids_distinct (splice1 i ms).
Proof.
  revert i. induction ms as [|m r IH]; intros [|i]; cbn [splice1]; auto.
  - now intros [_ Hr].
  - intros [Hm Hr]. split; [|now apply IH].
    intros x Hx. apply Hm. now apply splice1_In in Hx.
Qed.

Lemma update_at_ids (i : nat) (newContent iso : string) (ms : list Message) :
  map id (update_at i (apply_edit newContent iso) ms) = map id ms.
Proof.
  revert i. induction ms as [|m r IH]; intros [|i]; cbn [update_at map];
    try reflexivity.
  now rewrite IH.
Qed.

Lemma typing_sweep_messages (now : Z) (st : State) :
  messages (fst (typing_sweep now st)) = messages st.
Proof. unfold typing_sweep. now destruct (sweep_typing now (typingUsers st)). Qed.

(** One input keeps the ids apart when the id it draws, if any, is new. *)
Lemma handle_ids_distinct (i : Input) (st : State) :
  ids_distinct (messages st) ->
  fresh_for i (messages st) ->
  ids_distinct (messages (fst (handle i st))).
Proof.
  intros Hd Hf. destruct i; cbn [handle].
  - exact Hd.
  - cbn [send_message fst messages]. rewrite push_and_trim_slice.
    unfold slice_last. apply ids_distinct_skipn.
    now apply ids_distinct_app_one.
  - unfold edit_message.
    destruct (findIndex _ _); [|exact Hd].
    destruct (nth_error _ _); [|exact Hd].
    destruct (String.eqb _ _); [|exact Hd].
    cbn [fst messages set_messages].
    apply (ids_distinct_same_ids (messages st)); [|exact Hd].
    symmetry. apply update_at_ids.
  - unfold delete_message.
    destruct (findIndex _ _); [|exact Hd].
    destruct (nth_error _ _); [|exact Hd].
    destruct (String.eqb _ _); [|exact Hd].
    now apply ids_distinct_splice1.
  - exact Hd.
  - exact Hd.
  - exact Hd.
  - unfold disconnect.
    destruct (str_get self (connectedUsers st)) as [[|c r]|]; exact Hd.
  - now rewrite typing_sweep_messages.
Qed.

(** C9 (as the code has it). The ids in the store stay pairwise
    different through any run of inputs in which every [send_message]
    draws an id ([Date.now() + Math.random()]) that no stored message
    carries at that moment; edits, deletes, the trim and every other
    handler keep them different on their own. *)
Theorem ids_stay_distinct (inputs : list Input) (st : State) :
  ids_distinct (messages st) ->
  all_fresh inputs st ->
  ids_distinct (messages (fst (run inputs st))).
Proof.
  revert st. induction inputs as [|i rest IH]; intros st Hd Hf; [exact Hd|].
  destruct Hf as [Hi Hrest]. rewrite run_cons_fst.
  apply IH; [|exact Hrest]. now apply handle_ids_distinct.
Qed.

(** ** The bound on the store as an invariant of the server *)

Lemma update_at_length {A} (i : nat) (f : A -> A) (l : list A) :
  List.length (update_at i f l) = List.length l.
Proof.
  revert i. induction l as [|x r IH]; intros [|i]; cbn [update_at List.length];
    try reflexivity.
  now rewrite IH.
Qed.

Lemma splice1_length {A} (i : nat) (l : list A) :
  (List.length (splice1 i l) <= List.length l)%nat.
Proof.
  revert i. induction l as [|x r IH]; intros [|i]; cbn [splice1 List.length];
    try lia.
  specialize (IH i). lia.
Qed.

(** No handler lets the store grow past 100 messages. *)
Lemma handle_store_bounded (i : Input) (st : State) :
  (List.length (messages st) <= 100)%nat ->
  (List.length (messages (fst (handle i st))) <= 100)%nat.
Proof.
  intros Hb. destruct i; cbn [handle].
  - exact Hb.
  - cbn [send_message fst messages].
    rewrite push_and_trim_slice, slice_last_length. lia.
  - unfold edit_message.
    destruct (findIndex _ _); [|exact Hb].
    destruct (nth_error _ _); [|exact Hb].
    destruct (String.eqb _ _); [|exact Hb].
    cbn [fst messages set_messages]. now rewrite update_at_length.
  - unfold delete_message.
    destruct (findIndex _ _) as [i|]; [|exact Hb].
    destruct (nth_error _ _); [|exact Hb].
    destruct (String.eqb _ _); [|exact Hb].
    cbn [fst messages set_messages].
    pose proof (splice1_length i (messages st)). lia.
  - exact Hb.
  - exact Hb.
  - exact Hb.
  - unfold disconnect.
    destruct (str_get self (connectedUsers st)) as [[|c r]|]; exact Hb.
  - now rewrite typing_sweep_messages.
Qed.

(** X16. In every state the server can reach, whatever mix of inputs
    led to it, the store holds at most 100 messages. *)
Lemma reachable_store_bounded (inputs : list Input) :
  (List.length (messages (fst (run inputs initial))) <= 100)%nat.
Proof.
  assert (forall st, (List.length (messages st) <= 100)%nat ->
                     (List.length (messages (fst (run inputs st))) <= 100)%nat)
    as H.
  { induction inputs as [|i rest IH]; intros st Hb; [exact Hb|].
    rewrite run_cons_fst. now apply IH, handle_store_bounded. }
  apply H. cbn. lia.
Qed.

(* ================================================================== *)
(** * Part III. Scenarios                                              *)
(* ================================================================== *)

(** [lev] sends "hi": one stored message, one [user_stopped_typing] and
    one [new_message], both to everybody. *)
Example lev_says_hi_run :
  exists m,
    run [lev_says_hi] initial
    = (set_messages [m] initial,
       [ (io_emit, user_stopped_typing "lev"); (io_emit, new_message m) ])
    /\ username m = "lev" /\ content m = "hi" /\ type m = "text"
    /\ edited m = false /\ id m = lev_id.
Proof. eexists. repeat split. Qed.

(** 101 messages in a row: 100 are kept and the first one is gone. *)
Example hundred_and_one_messages :
  let sent := map (fun n => (Z.of_nat n, 0.5%float, "t", text_from "lev" "x"))
                  (seq 0 101) in
  let final := messages (fst (run (map send_input sent) initial)) in
  List.length final = 100%nat /\
  map id final = map (fun n => id (built (Z.of_nat n, 0.5%float, "t",
                                          text_from "lev" "x")))
                     (seq 1 100).
Proof. vm_compute. split; reflexivity. Qed.

(** Search ignores case, looks at content and author, and answers
    nothing to the empty query. *)
Example search_scenario :
  let st := fst (run [lev_says_hi; cin_next_ms] initial) in
  map username (api_search (Some "LEV") st) = ["lev"] /\
  map username (api_search (Some "Y") st) = ["cin"] /\
  map username (api_search (Some "i") st) = ["lev"; "cin"] /\
  api_search (Some "") st = [] /\
  List.length (api_messages st) = 2%nat.
Proof. vm_compute. repeat split. Qed.

(** C2, witness: [cin] tries to edit [lev]'s message. *)
Lemma edit_message_unauthorized_noop_witness :
  let data := {| e_messageId := lev_id; e_username := "cin";
                 e_newContent := "bye" |} in
  (forall m, find (has_id (e_messageId data)) (messages lev_alone) = Some m ->
             username m <> e_username data) /\
  edit_message "2023-11-14T22:14:00.000Z" data lev_alone = (lev_alone, []).
Proof.
  intros data.
  assert (forall m,
            find (has_id (e_messageId data)) (messages lev_alone) = Some m ->
            username m <> e_username data) as H.
  { intros m F. vm_compute in F. injection F as <-. vm_compute. discriminate. }
  split; [exact H|].
  exact (edit_message_unauthorized_noop "2023-11-14T22:14:00.000Z" data
           lev_alone H).
Defined.

(** C3, witness: [lev] deletes the message, and [cin] fails to. *)
Lemma delete_message_one_or_none_witness :
  (messages (fst (delete_message
                    {| d_messageId := lev_id; d_username := "lev" |}
                    lev_alone)) = [] /\
   snd (delete_message {| d_messageId := lev_id; d_username := "lev" |}
                       lev_alone)
   = [ (io_emit, message_deleted lev_id) ]) /\
  delete_message {| d_messageId := lev_id; d_username := "cin" |} lev_alone
  = (lev_alone, []).
Proof.
  split.
  - destruct (proj1 (delete_message_one_or_none
                       {| d_messageId := lev_id; d_username := "lev" |}
                       lev_alone)
                    (built (1700000000000, 0.5%float,
                            "2023-11-14T22:13:20.000Z", text_from "lev" "hi"))
                    eq_refl eq_refl)
      as [pre [post [Hl [_ [Hd [_ Hout]]]]]].
    split; [|exact Hout].
    rewrite Hd. destruct pre as [|x pre]; cbn in Hl.
    + injection Hl as <-. reflexivity.
    + destruct pre; discriminate Hl.
  - apply (proj2 (delete_message_one_or_none
                    {| d_messageId := lev_id; d_username := "cin" |}
                    lev_alone)).
    intros m F. vm_compute in F. injection F as <-. vm_compute. discriminate.
Defined.

(** C4, counterexample to "removed at any time >= T + 3000": [lev] types
    at 1000 and the sweep runs at exactly 4000. *)
Lemma typing_entry_kept_at_3000 :
  let st := fst (typing "s1" 1000 "lev" initial) in
  str_wf (typingUsers st) /\
  str_get "lev" (typingUsers st) = Some 1000 /\
  4000 >= 1000 + 3000 /\
  str_has "lev" (typingUsers (fst (typing_sweep 4000 st))) = true /\
  snd (typing_sweep 4000 st) = [].
Proof.
  cbv zeta. repeat split.
  intros H. discriminate H.
Qed.

(** C4, witness: [lev] types at 1000; the sweeps at 3999 and 4000 keep the
    entry, the sweep at 4001 removes it and tells everybody. *)
Lemma typing_sweep_expiry_witness :
  let st := fst (typing "s1" 1000 "lev" initial) in
  (str_wf (typingUsers st) /\ str_get "lev" (typingUsers st) = Some 1000) /\
  (str_has "lev" (typingUsers (fst (typing_sweep 4001 st))) = false /\
   In (io_emit, user_stopped_typing "lev") (snd (typing_sweep 4001 st))) /\
  (str_get "lev" (typingUsers (fst (typing_sweep 3999 st))) = Some 1000 /\
   ~ In (io_emit, user_stopped_typing "lev") (snd (typing_sweep 3999 st))) /\
  (str_get "lev" (typingUsers (fst (typing_sweep 4000 st))) = Some 1000 /\
   ~ In (io_emit, user_stopped_typing "lev") (snd (typing_sweep 4000 st))).
Proof.
  intros st.
  assert (str_wf (typingUsers st)) as Hwf by (vm_compute; auto).
  assert (str_get "lev" (typingUsers st) = Some 1000) as Hget by reflexivity.
  split; [split; assumption|].
  split; [|split].
  - apply (proj1 (typing_sweep_expiry st "lev" 1000 4001 Hwf Hget)). lia.
  - apply (proj2 (typing_sweep_expiry st "lev" 1000 3999 Hwf Hget)). lia.
  - apply (proj2 (typing_sweep_expiry st "lev" 1000 4000 Hwf Hget)). lia.
Defined.

(** C6, counterexample to "the presence notice goes to all connections
    except the joiner": [cin] joins on socket [s2] while [lev] is
    connected on [s1], and [s2] itself receives the presence update. *)
Lemma join_presence_reaches_joiner :
  let st := fst (join "s1" "lev" initial) in
  inbox "s2" (snd (join "s2" "cin" st))
  = [ user_status_update "cin" "online";
      chat_history [];
      online_users [("lev", "online"); ("cin", "online")] ]
  /\ In (user_status_update "cin" "online")
        (inbox "s2" (snd (join "s2" "cin" st)))
  /\ inbox "s1" (snd (join "s2" "cin" st))
     = [ user_status_update "cin" "online"; user_joined "cin" ].
Proof. cbv zeta. repeat split. now left. Qed.

(** C7, counterexample to "no-op when no message has the id": the store
    is empty, and the receipt is recorded and announced all the same. *)
Lemma mark_as_read_without_message :
  let data := {| r_messageId := 1%float; r_username := "lev" |} in
  messages initial = [] /\
  readReceipts (fst (mark_as_read data initial)) = [(1%float, ["lev"])] /\
  readReceipts (fst (mark_as_read data initial)) <> readReceipts initial /\
  snd (mark_as_read data initial) = [ (io_emit, message_read 1%float "lev") ].
Proof.
  cbv zeta. repeat split.
  intros H. discriminate H.
Qed.

(** C9, counterexample to "an append never repeats a stored id": two
    messages sent in the same millisecond with different random draws
    get the same id, because the sum is rounded to a double. *)
Lemma send_message_id_collision :
  let st := fst (run [lev_says_hi; cin_same_ms] initial) in
  strict_eq 0.5%float 0.50006103515625%float = false /\
  map id (messages st) = [lev_id; lev_id] /\
  strict_eq lev_id lev_id = true /\
  ~ ids_distinct (messages st).
Proof.
  cbv zeta. repeat split.
  intros [H _].
  specialize (H _ (or_introl eq_refl)). vm_compute in H. discriminate H.
Qed.

(** C9, witness: two sends one millisecond apart, an edit and a delete. *)
Lemma ids_stay_distinct_witness :
  let inputs :=
    [ lev_says_hi; cin_next_ms;
      on_edit_message "2023-11-14T22:14:00.000Z"
        {| e_messageId := lev_id; e_username := "lev";
           e_newContent := "hello" |};
      on_delete_message {| d_messageId := lev_id; d_username := "lev" |} ] in
  (ids_distinct (messages initial) /\ all_fresh inputs initial) /\
  ids_distinct (messages (fst (run inputs initial))).
Proof.
  intros inputs.
  assert (ids_distinct (messages initial)) as Hd by exact I.
  assert (all_fresh inputs initial) as Hf.
  { vm_compute. repeat split.
    - intros m [].
    - intros m [<-|[]]. reflexivity. }
  split; [split; assumption|].
  exact (ids_stay_distinct inputs initial Hd Hf).
Defined.

(** C10, witness: [cin] has read [lev]'s message and [lev] deletes it;
    the receipt stays behind. *)
Lemma delete_message_keeps_receipts_witness :
  let data := {| d_messageId := lev_id; d_username := "lev" |} in
  messages (fst (delete_message data lev_read_by_cin)) = [] /\
  num_has lev_id (readReceipts (fst (delete_message data lev_read_by_cin)))
  = true /\
  num_get lev_id (readReceipts (fst (delete_message data lev_read_by_cin)))
  = Some ["cin"].
Proof.
  intros data. split; [reflexivity|].
  assert (["cin"] <> @nil string) as Hne by discriminate.
  destruct (delete_message_keeps_receipts data lev_read_by_cin ["cin"]
              eq_refl Hne eq_refl) as [Hhas [Hget _]].
  split; assumption.
Defined.


(* ================================================================== *)
(** * Part IV. Further properties of the server and of its client      *)
(* ================================================================== *)

(** ** Equality of numbers *)

Lemma SFeqb_class (a b : spec_float) :
  SFeqb a b = true <-> eq_class a = eq_class b /\ eq_class a <> None.
Proof.
  unfold SFeqb.
  destruct a as [sa|sa| |sa ma ea], b as [sb|sb| |sb mb eb]; cbn.
  all: try (split; [intros _; split; [reflexivity|discriminate]|reflexivity]).
  all: try (split; [discriminate|intros [E N]; first [discriminate E|now elim N]]).
  all: try (destruct sa; (split; [discriminate|intros [E N]; discriminate E])).
  all: try (destruct sb; (split; [discriminate|intros [E N]; discriminate E])).
  - destruct sa, sb; cbn.
    all: try (split; [intros _; split; [reflexivity|discriminate]|reflexivity]).
    all: split; [discriminate|intros [E N]; discriminate E].
  - change (Pos.compare_cont Eq ma mb) with (Pos.compare ma mb).
    destruct sa, sb.
    all: try (split; [discriminate|intros [E N]; discriminate E]).
    all: destruct (Z.compare_spec ea eb) as [->|H|H].
    all: try (split; [discriminate|intros [E N]; injection E as E1 E2; lia]).
    all: destruct (Pos.compare_spec ma mb) as [->|H|H]; cbn.
    all: try (split; [intros _; split; [reflexivity|discriminate]|reflexivity]).
    all: split; [discriminate|intros [E N]; injection E as E1; lia].
Qed.

(** [===] on numbers is symmetric and transitive. *)
Lemma strict_eq_sym (x y : Number) : strict_eq x y = strict_eq y x.
Proof.
  unfold strict_eq. rewrite !eqb_spec.
  apply eq_true_iff_eq. rewrite !SFeqb_class. split; intros [E N].
  - split; [now symmetry|congruence].
  - split; [now symmetry|congruence].
Qed.

Lemma strict_eq_trans (x y z : Number) :
  strict_eq x y = true -> strict_eq y z = true -> strict_eq x z = true.
Proof.
  unfold strict_eq. rewrite !eqb_spec, !SFeqb_class.
  intros [E1 N1] [E2 N2]. split; congruence.
Qed.

(** With pairwise different ids, an id addresses at most one stored
    message. *)
Lemma ids_distinct_one_match
    (mid : Number) (pre post : list Message) (m : Message) :
  ids_distinct (pre ++ m :: post) ->
  has_id mid m = true ->
  forall x, In x (pre ++ post) -> has_id mid x = false.
Proof.
  unfold has_id. induction pre as [|y pre IH]; cbn [app ids_distinct].
  - intros [Hm _] Em x Hx.
    destruct (strict_eq (id x) mid) eqn:Ex; [|reflexivity].
    rewrite strict_eq_sym in Ex.
    pose proof (strict_eq_trans _ _ _ Em Ex) as T.
    rewrite (Hm x Hx) in T. discriminate T.
  - intros [Hy Hd] Em x [<-|Hx]; [|now apply IH].
    destruct (strict_eq (id y) mid) eqn:Ey; [|reflexivity].
    rewrite strict_eq_sym in Em.
    pose proof (strict_eq_trans _ _ _ Ey Em) as T.
    rewrite (Hy m) in T; [discriminate T|].
    apply in_or_app. right. now left.
Qed.

(** ** Login *)

Lemma users_lookup_cases (key : string) :
  (key = "lev" /\ users_lookup key = account "lev" "lev") \/
  (key = "cin" /\ users_lookup key = account "cin" "cin") \/
  (key <> "lev" /\ key <> "cin" /\ In key Object_prototype_keys /\
   users_lookup key = inherited_member) \/
  (key <> "lev" /\ key <> "cin" /\ ~ In key Object_prototype_keys /\
   users_lookup key = no_entry).
Proof.
  unfold users_lookup, users, str_get. cbn [Map_get].
  destruct (String.eqb_spec "lev" key) as [<-|Hl]; [now left|].
  destruct (String.eqb_spec "cin" key) as [<-|Hc]; [right; now left|].
  right. right.
  destruct (existsb (String.eqb key) Object_prototype_keys) eqn:E.
  - left. repeat split; try congruence.
    apply existsb_exists in E. destruct E as [x [Hx E]].
    apply String.eqb_eq in E. now subst.
  - right. repeat split; try congruence.
    intros Hin. assert (existsb (String.eqb key) Object_prototype_keys = true).
    { apply existsb_exists. exists key. split; [exact Hin|].
      apply String.eqb_refl. }
    congruence.
Qed.

(** X1. A login that sends a password succeeds for the two accounts with
    their own passwords and for nothing else; every other request with a
    password is answered 401. *)
Theorem login_with_password (username : option string) (given : string) :
  (login username (Some given) = login_200 username <->
   (username = Some "lev" /\ given = "lev") \/
   (username = Some "cin" /\ given = "cin"))
  /\ (login username (Some given) = login_200 username \/
      login username (Some given) = login_401).
Proof.
  unfold login.
  destruct (users_lookup_cases (property_key username))
    as [[K ->]|[[K ->]|[[Kl [Kc [_ ->]]]|[Kl [Kc [_ ->]]]]]].
  - destruct (String.eqb_spec "lev" given) as [<-|Hg]; split; auto.
    + split; [intros _|reflexivity]. left.
      destruct username as [u|]; cbn in K; [subst; auto|discriminate].
    + split; [discriminate|]. intros [[_ E]|[E _]]; [congruence|].
      subst. discriminate.
  - destruct (String.eqb_spec "cin" given) as [<-|Hg]; split; auto.
    + split; [intros _|reflexivity]. right.
      destruct username as [u|]; cbn in K; [subst; auto|discriminate].
    + split; [discriminate|]. intros [[E _]|[_ E]]; [|congruence].
      subst. discriminate.
  - split; auto. split; [discriminate|].
    intros [[-> _]|[-> _]]; cbn in *; congruence.
  - split; auto. split; [discriminate|].
    intros [[-> _]|[-> _]]; cbn in *; congruence.
Qed.

(** X2. A login that sends no password succeeds exactly when the name is
    one that the [users] object inherits from [Object.prototype] (such as
    [toString]): the entry found is truthy and its [password] is
    [undefined], like the password that was not sent.  The accounts
    themselves and every other name get 401. *)
Theorem login_without_password (username : option string) :
  (login username None = login_200 username <->
   exists name, username = Some name /\ In name Object_prototype_keys)
  /\ (login username None = login_200 username \/
      login username None = login_401).
Proof.
  unfold login.
  assert (~ In "lev" Object_prototype_keys) as Nl
    by (cbn; intuition discriminate).
  assert (~ In "cin" Object_prototype_keys) as Nc
    by (cbn; intuition discriminate).
  assert (~ In "undefined" Object_prototype_keys) as Nu
    by (cbn; intuition discriminate).
  destruct (users_lookup_cases (property_key username))
    as [[K ->]|[[K ->]|[[Kl [Kc [Hin ->]]]|[Kl [Kc [Hin ->]]]]]].
  - split; auto. split; [discriminate|].
    intros [name [-> Hn]]. cbn in K. now subst.
  - split; auto. split; [discriminate|].
    intros [name [-> Hn]]. cbn in K. now subst.
  - split; auto. split; [intros _|reflexivity].
    destruct username as [u|]; cbn in Hin; [now exists u|contradiction].
  - split; auto. split; [discriminate|].
    intros [name [-> Hn]]. now cbn in Hin.
Qed.

(** ** The message store *)

(** X3. An edit by the author changes one message in place: the store
    [pre ++ m :: post] becomes [pre ++ m' :: post] where [m'] is [m] with
    the new content, [edited] set and [editedAt] the time of the edit;
    ids, authors and creation times are what they were, nothing but the
    store changes, and [message_edited] goes to everybody. *)
Theorem edit_message_in_place
    (iso : string) (data : EditData) (st : State) (m : Message) :
  find (has_id (e_messageId data)) (messages st) = Some m ->
  username m = e_username data ->
  exists pre post,
    messages st = pre ++ m :: post /\
    edit_message iso data st
    = (set_messages (pre ++ apply_edit (e_newContent data) iso m :: post) st,
       [ (io_emit, message_edited (e_messageId data) (e_newContent data)
                                  (Some iso)) ]) /\
    map id (messages (fst (edit_message iso data st))) = map id (messages st) /\
    map username (messages (fst (edit_message iso data st)))
    = map username (messages st) /\
    map timestamp (messages (fst (edit_message iso data st)))
    = map timestamp (messages st).
Proof.
  intros F E. pose proof (edit_message_cases iso data st) as C.
  rewrite F in C. rewrite E, String.eqb_refl in C.
  destruct C as [pre [post [Hl [_ Hd]]]].
  exists pre, post. rewrite Hd. cbn [fst messages set_messages].
  rewrite Hl, !map_app. cbn [map apply_edit id username timestamp].
  repeat split.
Qed.








Lemma str_has_delete_wf {V} (k : string) (m : StrMap V) :
  str_wf m -> str_has k (str_delete k m) = false.
Proof.
  intros Hwf. unfold str_has, Map_has. fold (@str_get V).
  rewrite (str_get_delete k k m Hwf). now rewrite String.eqb_refl.
Qed.

Lemma str_get_delete_other {V} (a k : string) (m : StrMap V) :
  a <> k -> str_get a (str_delete k m) = str_get a m.
Proof.
  intros Hne. unfold str_get, str_delete.
  induction m as [|[k' v'] r IH]; cbn [Map_get Map_delete]; [reflexivity|].
  destruct (String.eqb_spec k' k) as [->|Hk]; cbn [Map_get].
  - destruct (String.eqb_spec k a) as [->|_]; [now elim Hne|reflexivity].
  - now rewrite IH.
Qed.

(** X5. Right after a [send_message] the message just built is the last
    one of the store (the trim only drops from the front), the sender is
    no longer recorded as typing, and the typing entries of all other
    users are untouched. *)
Theorem send_message_appends
    (now : Z) (rnd : Number) (iso : string) (data : SendData) (st : State) :
  str_wf (typingUsers st) ->
  (exists kept,
     messages (fst (send_message now rnd iso data st))
     = kept ++ [build_message now rnd iso data]) /\
  str_has (s_username data)
          (typingUsers (fst (send_message now rnd iso data st))) = false /\
  (forall other, other <> s_username data ->
     str_get other (typingUsers (fst (send_message now rnd iso data st)))
     = str_get other (typingUsers st)).
Proof.
  intros Hwf. cbn [send_message fst messages typingUsers]. repeat split.
  - rewrite push_and_trim_slice. unfold slice_last.
    rewrite length_app. cbn [List.length].
    exists (skipn (List.length (messages st) + 1 - 100) (messages st)).
    rewrite skipn_app.
    replace (List.length (messages st) + 1 - 100 - List.length (messages st))%nat
      with O by lia.
    reflexivity.
  - now apply str_has_delete_wf.
  - intros other Hne. now apply str_get_delete_other.
Qed.

Lemma find_None_all {A} (p : A -> bool) (l : list A) :
  (forall x, In x l -> p x = false) -> find p l = None.
Proof.
  induction l as [|y r IH]; cbn [find]; [reflexivity|]. intros H.
  rewrite (H y (or_introl eq_refl)). apply IH. intros x Hx. apply H. now right.
Qed.

(** After a delete that went through, with pairwise different ids, no
    stored message carries the id any more. *)
Lemma delete_message_unaddressable (data : DeleteData) (st : State) :
  ids_distinct (messages st) ->
  snd (delete_message data st) <> [] ->
  find (has_id (d_messageId data)) (messages (fst (delete_message data st)))
  = None.
Proof.
  intros Hd Hout. pose proof (delete_message_cases data st) as C.
  destruct (find (has_id (d_messageId data)) (messages st)) as [m|] eqn:F.
  - destruct (String.eqb (username m) (d_username data)).
    + destruct C as [pre [post [Hl [_ Hdel]]]].
      rewrite Hdel. cbn [fst messages set_messages].
      apply find_None_all. rewrite Hl in Hd.
      apply (ids_distinct_one_match _ _ _ m Hd).
      apply find_some in F. tauto.
    + rewrite C in Hout. now elim Hout.
  - rewrite C in Hout. now elim Hout.
Qed.

(** X14. With pairwise different ids a deleted message is gone for good:
    repeating the delete changes nothing and emits nothing, and so does
    any later edit that names the deleted id. *)
Theorem delete_message_twice (data : DeleteData) (st : State) :
  ids_distinct (messages st) ->
  delete_message data (fst (delete_message data st))
  = (fst (delete_message data st), [])
  /\ (snd (delete_message data st) <> [] ->
      forall iso edit, e_messageId edit = d_messageId data ->
        edit_message iso edit (fst (delete_message data st))
        = (fst (delete_message data st), [])).
Proof.
  intros Hd. split.
  - destruct (snd (delete_message data st)) as [|e out] eqn:Hout.
    + pose proof (delete_message_cases data st) as C.
      destruct (find (has_id (d_messageId data)) (messages st)) as [m|] eqn:F.
      * destruct (String.eqb (username m) (d_username data)) eqn:E.
        -- destruct C as [pre [post [_ [_ Hdel]]]].
           rewrite Hdel in Hout. discriminate Hout.
        -- rewrite C. cbn [fst]. exact C.
      * rewrite C. cbn [fst]. exact C.
    + assert (snd (delete_message data st) <> []) as Hne
        by (rewrite Hout; discriminate).
      pose proof (delete_message_unaddressable data st Hd Hne) as F.
      pose proof (delete_message_cases data (fst (delete_message data st))) as C.
      now rewrite F in C.
  - intros Hne iso edit Eid.
    pose proof (delete_message_unaddressable data st Hd Hne) as F.
    pose proof (edit_message_cases iso edit (fst (delete_message data st))) as C.
    rewrite Eid in C. now rewrite F in C.
Qed.

(** ** The typing tracker *)

Lemma str_wf_NoDup {V} (m : StrMap V) : str_wf m -> NoDup (map fst m).
Proof.
  unfold str_wf. induction m as [|[k v] r IH]; cbn [Map_wf map fst].
  - constructor.
  - intros [Hk Hr]. constructor; [|now apply IH].
    intros Hin. apply in_map_iff in Hin. destruct Hin as [[k' v'] [E Hin]].
    cbn in E. subst k'.
    pose proof (str_wf_In_get k v' r Hr Hin) as G. unfold str_get in G.
    rewrite G in Hk. discriminate.
Qed.

Lemma stopped_users_broadcast (l : list (string * Z)) :
  stopped_users (map stopped_typing_broadcast l) = map fst l.
Proof. induction l as [|e r IH]; cbn; [reflexivity|now rewrite IH]. Qed.

(** X6. The sweep, a loop that deletes from the map it iterates over, is
    a filter: it keeps, in order, the entries that are at most 3000 ms
    old and announces, in insertion order and once each, the users of the
    entries it removes, which are exactly the users recorded more than
    3000 ms ago. *)
Theorem typing_sweep_exact (now : Z) (st : State) :
  str_wf (typingUsers st) ->
  typingUsers (fst (typing_sweep now st))
  = filter (fun e => negb (expired now e)) (typingUsers st) /\
  snd (typing_sweep now st)
  = map stopped_typing_broadcast (filter (expired now) (typingUsers st)) /\
  NoDup (stopped_users (snd (typing_sweep now st))) /\
  (forall u, In u (stopped_users (snd (typing_sweep now st))) <->
             exists T, str_get u (typingUsers st) = Some T /\ T + 3000 < now).
Proof.
  intros Hwf. rewrite typing_sweep_filter by exact Hwf.
  cbn [fst snd typingUsers set_typingUsers].
  rewrite stopped_users_broadcast. repeat split.
  - apply str_wf_NoDup. now apply str_wf_filter.
  - intros Hin. apply in_map_iff in Hin. destruct Hin as [[u' T] [E Hin]].
    cbn in E. subst u'. apply filter_In in Hin. destruct Hin as [Hin He].
    exists T. split; [now apply str_wf_In_get|].
    unfold expired in He. cbn [snd] in He. apply Z.ltb_lt in He. lia.
  - intros [T [G HT]]. apply in_map_iff. exists (u, T). split; [reflexivity|].
    apply filter_In. split; [now apply str_get_In|].
    unfold expired. cbn [snd]. apply Z.ltb_lt. lia.
Qed.

Lemma filter_all {A} (f : A -> bool) (l : list A) :
  (forall x, In x l -> f x = true) -> filter f l = l.
Proof.
  induction l as [|y r IH]; cbn [filter]; [reflexivity|]. intros H.
  rewrite (H y (or_introl eq_refl)). f_equal. apply IH.
  intros x Hx. apply H. now right.
Qed.

Lemma filter_none {A} (f : A -> bool) (l : list A) :
  (forall x, In x l -> f x = false) -> filter f l = [].
Proof.
  induction l as [|y r IH]; cbn [filter]; [reflexivity|]. intros H.
  rewrite (H y (or_introl eq_refl)). apply IH.
  intros x Hx. apply H. now right.
Qed.

(** X7. A sweep leaves nothing for a sweep that is not run later: after
    the sweep at [now], a sweep at any time up to [now] changes nothing
    and announces nothing. *)
Theorem typing_sweep_twice (now now' : Z) (st : State) :
  str_wf (typingUsers st) ->
  now' <= now ->
  typing_sweep now' (fst (typing_sweep now st))
  = (fst (typing_sweep now st), []).
Proof.
  intros Hwf Hle.
  assert (str_wf (typingUsers (fst (typing_sweep now st)))) as Hwf'
    by (apply (handle_typing_wf (on_interval now)); exact Hwf).
  rewrite (typing_sweep_filter now' _ Hwf').
  rewrite typing_sweep_filter by exact Hwf.
  cbn [fst typingUsers set_typingUsers].
  assert (forall e, In e (filter (fun e => negb (expired now e)) (typingUsers st))
                    -> expired now' e = false) as Hfresh.
  { intros e He. apply filter_In in He. destruct He as [_ He].
    unfold expired in *. apply negb_true_iff, Z.ltb_ge in He.
    apply Z.ltb_ge. lia. }
  set (kept := filter (fun e => negb (expired now e)) (typingUsers st)) in *.
  rewrite (filter_all (fun e => negb (expired now' e)) kept),
          (filter_none (expired now') kept); [reflexivity|exact Hfresh|].
  intros e He. now rewrite (Hfresh e He).
Qed.

Lemma str_delete_set_fresh {V} (k : string) (v : V) (m : StrMap V) :
  str_get k m = None -> str_delete k (str_set k v m) = m.
Proof.
  unfold str_get, str_set, str_delete.
  induction m as [|[k' v'] r IH]; cbn [Map_get Map_set Map_delete].
  - now rewrite String.eqb_refl.
  - destruct (String.eqb k' k) eqn:E; [discriminate|]. intros H.
    cbn [Map_delete]. rewrite E. now rewrite IH.
Qed.

(** X13. [typing] followed by [stop_typing] for the same user leaves the
    user not typing, and when the user was not recorded as typing before,
    the typing map is exactly what it was. *)
Theorem typing_then_stop
    (self self' : SocketId) (now : Z) (user : string) (st : State) :
  str_wf (typingUsers st) ->
  let st' := fst (stop_typing self' user (fst (typing self now user st))) in
  str_has user (typingUsers st') = false /\
  (str_get user (typingUsers st) = None -> typingUsers st' = typingUsers st).
Proof.
  intros Hwf st'. subst st'.
  cbn [typing stop_typing fst typingUsers set_typingUsers]. split.
  - apply str_has_delete_wf. now apply str_wf_set.
  - intros G. now apply str_delete_set_fresh.
Qed.

(** ** Read receipts *)

Lemma Set_add_incl (u : string) (s : list string) : incl s (Set_add u s).
Proof.
  unfold Set_add. destruct (existsb (String.eqb u) s).
  - apply incl_refl.
  - now apply incl_appl, incl_refl.
Qed.

Lemma readers_of_set_incl
    (k mid : Number) (v : list string) (m : NumMap (list string)) :
  (forall old, num_get k m = Some old -> incl old v) ->
  incl (readers_of mid m) (readers_of mid (num_set k v m)).
Proof.
  unfold readers_of, num_get, num_set.
  induction m as [|[s o] r IH]; cbn [Map_get Map_set]; intros H.
  - intros x [].
  - destruct (SameValueZero s k) eqn:Ek; cbn [Map_get].
    + destruct (SameValueZero s mid); [now apply H|apply incl_refl].
    + destruct (SameValueZero s mid); [apply incl_refl|now apply IH].
Qed.

Lemma handle_receipts_grow (i : Input) (st : State) (mid : Number) :
  incl (readers_of mid (readReceipts st))
       (readers_of mid (readReceipts (fst (handle i st)))).
Proof.
  destruct i; cbn [handle]; try apply incl_refl.
  - unfold edit_message.
    destruct (findIndex _ _); [|apply incl_refl].
    destruct (nth_error _ _); [|apply incl_refl].
    destruct (String.eqb _ _); apply incl_refl.
  - rewrite delete_message_readReceipts. apply incl_refl.
  - rewrite mark_as_read_receipts. apply readers_of_set_incl.
    intros old G. unfold readers_of. rewrite G. apply Set_add_incl.
  - unfold disconnect.
    destruct (str_get self (connectedUsers st)) as [[|c r]|]; apply incl_refl.
  - unfold typing_sweep. destruct (sweep_typing now (typingUsers st)).
    apply incl_refl.
Qed.

(** X8. Read receipts only grow: whoever is recorded as a reader of an
    id is still recorded after any run of inputs, deletes of the message
    and the trim of the store included. *)
Theorem receipts_never_shrink
    (inputs : list Input) (st : State) (mid : Number) (reader : string) :
  In reader (readers_of mid (readReceipts st)) ->
  In reader (readers_of mid (readReceipts (fst (run inputs st)))).
Proof.
  revert st. induction inputs as [|i rest IH]; intros st H; [exact H|].
  rewrite run_cons_fst. apply IH. now apply (handle_receipts_grow i st mid).
Qed.

(** ** Connections and presence *)

Lemma disconnect_noop (self : SocketId) (st : State) :
  str_get self (connectedUsers st) = None \/
  str_get self (connectedUsers st) = Some EmptyString ->
  disconnect self st = (st, []).
Proof. unfold disconnect. now intros [-> | ->]. Qed.

Lemma disconnect_known (self : SocketId) (user : string) (st : State) :
  str_get self (connectedUsers st) = Some user ->
  user <> EmptyString ->
  disconnect self st
  = ({| messages := messages st;
        connectedUsers := str_delete self (connectedUsers st);
        userStatus := str_set user "offline" (userStatus st);
        typingUsers := str_delete user (typingUsers st);
        readReceipts := readReceipts st |},
     [ (io_emit, user_status_update user "offline");
       (socket_broadcast_emit self, user_left user);
       (io_emit, user_stopped_typing user) ]).
Proof.
  intros G Hne. unfold disconnect. rewrite G.
  destruct user as [|c r]; [now elim Hne|reflexivity].
Qed.

Lemma str_has_set_keeps {V} (a k : string) (v : V) (m : StrMap V) :
  str_has a m = true -> str_has a (str_set k v m) = true.
Proof.
  unfold str_has, Map_has. fold (@str_get V). rewrite str_get_set.
  now destruct (String.eqb k a).
Qed.

Lemma Forall_status_set (k v : string) (m : StrMap string) :
  status_ok (k, v) -> Forall status_ok m -> Forall status_ok (str_set k v m).
Proof.
  intros Hv. unfold str_set.
  induction m as [|[k' v'] r IH]; cbn [Map_set]; intros H.
  - constructor; [exact Hv|constructor].
  - inversion H; subst. destruct (String.eqb k' k).
    + constructor; [exact Hv|assumption].
    + constructor; [assumption|now apply IH].
Qed.

Lemma handle_presence (i : Input) (st : State) (user : string) :
  (str_has user (userStatus st) = true ->
   str_has user (userStatus (fst (handle i st))) = true) /\
  (Forall status_ok (userStatus st) ->
   Forall status_ok (userStatus (fst (handle i st)))).
Proof.
  destruct i; cbn [handle]; try (split; intros H; exact H).
  - split; intros H; cbn [join fst userStatus].
    + now apply str_has_set_keeps.
    + apply Forall_status_set; [now left|exact H].
  - unfold edit_message.
    destruct (findIndex _ _); [|split; intros H; exact H].
    destruct (nth_error _ _); [|split; intros H; exact H].
    destruct (String.eqb _ _); split; intros H; exact H.
  - unfold delete_message.
    destruct (findIndex _ _); [|split; intros H; exact H].
    destruct (nth_error _ _); [|split; intros H; exact H].
    destruct (String.eqb _ _); split; intros H; exact H.
  - unfold disconnect.
    destruct (str_get self (connectedUsers st)) as [[|c r]|];
      try (split; intros H; exact H).
    split; intros H; cbn [fst userStatus].
    + now apply str_has_set_keeps.
    + apply Forall_status_set; [now right|exact H].
  - unfold typing_sweep. destruct (sweep_typing now (typingUsers st)).
    split; intros H; exact H.
Qed.

(** X9. Presence entries are never removed and only ever hold 'online'
    or 'offline': a user that has a presence entry still has one after
    any run of inputs, and if all statuses were one of the two values
    they still are. *)
Theorem presence_persists (inputs : list Input) (st : State) (user : string) :
  (str_has user (userStatus st) = true ->
   str_has user (userStatus (fst (run inputs st))) = true) /\
  (Forall status_ok (userStatus st) ->
   Forall status_ok (userStatus (fst (run inputs st)))).
Proof.
  revert st. induction inputs as [|i rest IH]; intros st.
  - split; intros H; exact H.
  - rewrite run_cons_fst.
    destruct (handle_presence i st user) as [H1 H2].
    destruct (IH (fst (handle i st))) as [I1 I2].
    split; intros H; auto.
Qed.

(** X10. A second [disconnect] of the same socket does nothing: the
    first one removed the socket from [connectedUsers] (or found nothing
    to remove), so the second changes no state and emits no event. *)
Theorem disconnect_twice (self : SocketId) (st : State) :
  str_wf (connectedUsers st) ->
  disconnect self (fst (disconnect self st)) = (fst (disconnect self st), []).
Proof.
  intros Hwf.
  destruct (str_get self (connectedUsers st)) as [[|c r]|] eqn:G.
  - rewrite (disconnect_noop self st) by now right.
    apply disconnect_noop. now right.
  - rewrite (disconnect_known self (String c r) st G) by discriminate.
    apply disconnect_noop. left. cbn [fst connectedUsers].
    rewrite (str_get_delete self self _ Hwf). now rewrite String.eqb_refl.
  - rewrite (disconnect_noop self st) by now left.
    apply disconnect_noop. now left.
Qed.

(** X11. Presence is kept per user name, not per connection: when one of
    two sockets registered under the same non-empty name disconnects,
    the name is marked 'offline' and announced so to everybody although
    the other socket is still registered under it. *)
Theorem disconnect_with_second_socket
    (self other : SocketId) (user : string) (st : State) :
  str_get self (connectedUsers st) = Some user ->
  user <> EmptyString ->
  other <> self ->
  str_get other (connectedUsers st) = Some user ->
  str_get user (userStatus (fst (disconnect self st))) = Some "offline" /\
  str_get other (connectedUsers (fst (disconnect self st))) = Some user /\
  In (io_emit, user_status_update user "offline") (snd (disconnect self st)).
Proof.
  intros G Hne Ho Go. rewrite (disconnect_known self user st G Hne).
  cbn [fst snd userStatus connectedUsers]. repeat split.
  - rewrite str_get_set. now rewrite String.eqb_refl.
  - now rewrite str_get_delete_other.
  - now left.
Qed.

(** X12. [join] under a non-empty name followed by [disconnect] of a
    socket that was not registered restores [connectedUsers] exactly,
    leaves the user with the status 'offline' and not typing, and
    touches neither the store nor the receipts. *)
Theorem join_then_disconnect (self : SocketId) (user : string) (st : State) :
  str_wf (typingUsers st) ->
  user <> EmptyString ->
  str_get self (connectedUsers st) = None ->
  let st' := fst (disconnect self (fst (join self user st))) in
  connectedUsers st' = connectedUsers st /\
  str_get user (userStatus st') = Some "offline" /\
  str_has user (typingUsers st') = false /\
  messages st' = messages st /\
  readReceipts st' = readReceipts st.
Proof.
  intros Hwf Hne G st'. subst st'.
  assert (str_get self (connectedUsers (fst (join self user st))) = Some user)
    as G'.
  { cbn [join fst connectedUsers]. rewrite str_get_set.
    now rewrite String.eqb_refl. }
  rewrite (disconnect_known self user _ G' Hne).
  cbn [fst join messages connectedUsers userStatus typingUsers readReceipts].
  repeat split.
  - now apply str_delete_set_fresh.
  - rewrite str_get_set. now rewrite String.eqb_refl.
  - now apply str_has_delete_wf.
Qed.

(** X22. A socket that joins again under another, non-empty name leaves
    the first name behind: after [join u1], [join u2] and [disconnect]
    on the same socket, the socket is gone and [u2] is 'offline', but
    [u1] is still 'online', and no socket is registered under [u1] that
    was not already there before. *)
Theorem rejoin_leaves_stale_presence
    (self : SocketId) (u1 u2 : string) (st : State) :
  str_wf (connectedUsers st) ->
  u1 <> u2 ->
  u2 <> EmptyString ->
  let st' :=
    fst (disconnect self (fst (join self u2 (fst (join self u1 st))))) in
  str_get u1 (userStatus st') = Some "online" /\
  str_get u2 (userStatus st') = Some "offline" /\
  str_get self (connectedUsers st') = None /\
  (forall sid, str_get sid (connectedUsers st') = Some u1 ->
               str_get sid (connectedUsers st) = Some u1).
Proof.
  intros Hwf H12 Hne st'. subst st'.
  set (st2 := fst (join self u2 (fst (join self u1 st)))).
  assert (str_get self (connectedUsers st2) = Some u2) as G.
  { subst st2. cbn [join fst connectedUsers]. rewrite str_get_set.
    now rewrite String.eqb_refl. }
  assert (str_wf (connectedUsers st2)) as Hwf2.
  { subst st2. cbn [join fst connectedUsers]. now apply str_wf_set, str_wf_set. }
  rewrite (disconnect_known self u2 st2 G Hne).
  cbn [fst userStatus connectedUsers]. subst st2.
  cbn [join fst userStatus connectedUsers] in *. repeat split.
  - rewrite !str_get_set.
    destruct (String.eqb_spec u2 u1) as [E|_]; [now elim H12|].
    now rewrite String.eqb_refl.
  - rewrite str_get_set. now rewrite String.eqb_refl.
  - rewrite (str_get_delete self self _ Hwf2). now rewrite String.eqb_refl.
  - intros sid. rewrite (str_get_delete sid self _ Hwf2).
    destruct (String.eqb_spec self sid) as [->|Hs]; [discriminate|].
    rewrite !str_get_set.
    destruct (String.eqb_spec self sid) as [->|_]; [now elim Hs|auto].
Qed.

(** ** Search *)

Lemma string_app_assoc (a b c : string) :
  ((a ++ b) ++ c)%string = (a ++ (b ++ c))%string.
Proof. induction a as [|x a IH]; cbn; [reflexivity|now rewrite IH]. Qed.

Lemma includes_factor (s a q b : string) :
  includes s (a ++ q ++ b)%string = true -> includes s q = true.
Proof.
  rewrite !includes_spec. intros [pre [post ->]].
  exists (pre ++ a)%string, (b ++ post)%string.
  now rewrite !string_app_assoc.
Qed.

Lemma api_search_nonempty (q : string) (st : State) :
  q <> EmptyString ->
  api_search (Some q) st = filter (search_match q) (messages st).
Proof. destruct q; [intros H; now elim H|reflexivity]. Qed.

(** X15. On strings of code units below 256, where lower-casing is
    letter by letter, making the query longer can only narrow the
    answer: every message found for a query that contains [q] (with
    anything before or after it) is also found for the non-empty query
    [q] alone.  (Beyond that range lower-casing depends on the context
    and the property fails.) *)
Theorem search_narrowing (st : State) (a b : string) (c : ascii) (r : string) :
  incl (api_search (Some (a ++ String c r ++ b)%string) st)
       (api_search (Some (String c r)) st).
Proof.
  intros m. rewrite !api_search_nonempty;
    [|discriminate|destruct a; discriminate].
  rewrite !filter_In. intros [Hin Hm]. split; [exact Hin|].
  unfold search_match in *. rewrite !toLowerCase_app in Hm.
  apply orb_true_iff in Hm. apply orb_true_iff.
  destruct Hm as [H|H]; [left|right]; exact (includes_factor _ _ _ _ H).
Qed.

(** ** Who receives what *)

Lemma inbox_all_io_emit (c : SocketId) (out : list Emission) :
  Forall (fun e => fst e = io_emit) out -> inbox c out = map snd out.
Proof.
  unfold inbox. induction out as [|[t e] r IH]; cbn [filter map];
    [reflexivity|].
  intros H. inversion H as [|x l Ht Hr]; subst. cbn [fst] in *. subst t.
  cbn [receives map snd]. now rewrite IH.
Qed.

Lemma sweep_fold_stop (now : Z) (todo : StrMap Z)
    (acc : StrMap Z * list Emission) :
  Forall stop_broadcast (snd acc) ->
  Forall stop_broadcast (snd (fold_left (sweep_entry now) todo acc)).
Proof.
  revert acc. induction todo as [|[u t] todo IH]; intros acc H; [exact H|].
  cbn [fold_left]. apply IH. unfold sweep_entry.
  destruct (3000 <? now - t)%Z; [|exact H].
  cbn [snd]. apply Forall_app. split; [exact H|].
  constructor; [now exists u|constructor].
Qed.

Lemma typing_sweep_stop (now : Z) (st : State) :
  Forall stop_broadcast (snd (typing_sweep now st)).
Proof.
  unfold typing_sweep.
  pose proof (sweep_fold_stop now (typingUsers st) (typingUsers st, [])
                (Forall_nil _)) as H.
  fold (sweep_typing now (typingUsers st)) in H.
  now destruct (sweep_typing now (typingUsers st)).
Qed.

Lemma message_input_io_emit (i : Input) (st : State) :
  message_input i = true ->
  Forall (fun e => fst e = io_emit) (snd (handle i st)).
Proof.
  destruct i; cbn [message_input handle]; try discriminate; intros _.
  - repeat constructor.
  - unfold edit_message.
    destruct (findIndex _ _); [|constructor].
    destruct (nth_error _ _); [|constructor].
    destruct (String.eqb _ _); repeat constructor.
  - unfold delete_message.
    destruct (findIndex _ _); [|constructor].
    destruct (nth_error _ _); [|constructor].
    destruct (String.eqb _ _); repeat constructor.
  - repeat constructor.
  - eapply Forall_impl; [|apply typing_sweep_stop].
    intros e [u ->]. reflexivity.
Qed.

(** X17. Whatever a send, an edit, a delete, a read receipt or the sweep
    emits reaches every connection, the one that caused it included: the
    inbox of any connection is the whole list of emitted events, in
    order. *)
Theorem message_events_reach_everyone (i : Input) (st : State) (c : SocketId) :
  message_input i = true ->
  inbox c (snd (handle i st)) = map snd (snd (handle i st)).
Proof. intros H. now apply inbox_all_io_emit, message_input_io_emit. Qed.

(** ** The client's mirror *)

Lemma client_run_neutral (events : list Event) (v : ClientView) :
  Forall store_neutral events ->
  c_messages (client_run events v) = c_messages v /\
  c_readReceipts (client_run events v) = c_readReceipts v.
Proof.
  unfold client_run. revert v.
  induction events as [|e r IH]; intros v H; [now split|].
  inversion H as [|x l He Hr]; subst. cbn [fold_left].
  destruct (IH (client_on e v) Hr) as [I1 I2]. rewrite I1, I2.
  destruct e; cbn in He; try contradiction; now split.
Qed.

Lemma client_edit_map (mid : Number) (newContent iso : string)
    (pre post : list Message) (m : Message) :
  (forall x, In x (pre ++ post) -> has_id mid x = false) ->
  has_id mid m = true ->
  map (client_edit mid newContent (Some iso)) (pre ++ m :: post)
  = pre ++ apply_edit newContent iso m :: post.
Proof.
  intros Hno Hm.
  assert (forall l, (forall x, In x l -> has_id mid x = false) ->
                    map (client_edit mid newContent (Some iso)) l = l) as Hid.
  { induction l as [|y l IH]; intros H; cbn [map]; [reflexivity|].
    unfold client_edit at 1. unfold has_id in H.
    rewrite (H y (or_introl eq_refl)). f_equal. apply IH.
    intros x Hx. apply H. now right. }
  rewrite map_app. cbn [map]. rewrite !Hid.
  - unfold client_edit, has_id in *. now rewrite Hm.
  - intros x Hx. apply Hno, in_or_app. now right.
  - intros x Hx. apply Hno, in_or_app. now left.
Qed.

Lemma client_delete_filter (mid : Number) (pre post : list Message) (m : Message) :
  (forall x, In x (pre ++ post) -> has_id mid x = false) ->
  has_id mid m = true ->
  filter (fun msg => negb (strict_eq (id msg) mid)) (pre ++ m :: post)
  = pre ++ post.
Proof.
  intros Hno Hm. rewrite filter_app. cbn [filter].
  unfold has_id in *. rewrite Hm. cbn [negb].
  rewrite !filter_all; [reflexivity| |].
  - intros x Hx. rewrite (Hno x); [reflexivity|]. apply in_or_app. now right.
  - intros x Hx. rewrite (Hno x); [reflexivity|]. apply in_or_app. now left.
Qed.

Lemma typing_sweep_readReceipts (now : Z) (st : State) :
  readReceipts (fst (typing_sweep now st)) = readReceipts st.
Proof. unfold typing_sweep. now destruct (sweep_typing now (typingUsers st)). Qed.

(** One input: a client whose copy of the store and of the receipts
    equals the server's keeps it equal through any single input the
    server handles, whichever connection it is, as long as the stored ids
    are pairwise different and the store holds fewer than 100 messages. *)
Theorem client_stays_in_sync
    (c : SocketId) (i : Input) (st : State) (v : ClientView) :
  in_sync v st ->
  ids_distinct (messages st) ->
  (List.length (messages st) < 100)%nat ->
  in_sync (client_after c i st v) (fst (handle i st)).
Proof.
  intros [Hm Hr] Hd Hlen. unfold client_after, in_sync.
  destruct i; cbn [handle].
  - unfold join, inbox. cbn [snd fst filter receives map].
    destruct (String.eqb c self); cbn; auto.
  - rewrite inbox_all_io_emit by (repeat constructor).
    cbn. rewrite Hm. split; [|exact Hr].
    unfold push_and_trim.
    destruct (Nat.ltb_spec 100 (List.length (messages st ++
              [build_message now rnd iso data]))) as [H|H]; [|reflexivity].
    rewrite length_app in H. cbn in H. lia.
  - pose proof (edit_message_cases iso data st) as C.
    destruct (find (has_id (e_messageId data)) (messages st)) as [m|] eqn:F.
    + destruct (String.eqb (username m) (e_username data)).
      * destruct C as [pre [post [Hl [_ Hdo]]]]. rewrite Hdo.
        rewrite inbox_all_io_emit by (repeat constructor).
        cbn. rewrite Hm, Hl. split; [|exact Hr].
        apply client_edit_map.
        -- rewrite Hl in Hd. apply (ids_distinct_one_match _ _ _ m Hd).
           apply find_some in F. tauto.
        -- apply find_some in F. tauto.
      * rewrite C. cbn. auto.
    + rewrite C. cbn. auto.
  - pose proof (delete_message_cases data st) as C.
    destruct (find (has_id (d_messageId data)) (messages st)) as [m|] eqn:F.
    + destruct (String.eqb (username m) (d_username data)).
      * destruct C as [pre [post [Hl [_ Hdo]]]]. rewrite Hdo.
        rewrite inbox_all_io_emit by (repeat constructor).
        cbn. rewrite Hm, Hl. split; [|exact Hr].
        apply client_delete_filter.
        -- rewrite Hl in Hd. apply (ids_distinct_one_match _ _ _ m Hd).
           apply find_some in F. tauto.
        -- apply find_some in F. tauto.
      * rewrite C. cbn. auto.
    + rewrite C. cbn. auto.
  - unfold typing, inbox. cbn [snd fst filter receives map].
    destruct (negb (String.eqb c self)); cbn; auto.
  - unfold stop_typing, inbox. cbn [snd fst filter receives map].
    destruct (negb (String.eqb c self)); cbn; auto.
  - rewrite inbox_all_io_emit by (repeat constructor).
    cbn [mark_as_read snd fst map client_run fold_left client_on
         c_messages c_readReceipts messages readReceipts set_readReceipts].
    split; [exact Hm|]. rewrite Hr. reflexivity.
  - unfold disconnect.
    destruct (str_get self (connectedUsers st)) as [[|ch r]|]; cbn; auto.
    unfold inbox. cbn [snd fst filter receives map].
    destruct (negb (String.eqb c self)); cbn; auto.
  - rewrite typing_sweep_messages, typing_sweep_readReceipts.
    rewrite <- Hm, <- Hr. apply client_run_neutral.
    rewrite inbox_all_io_emit.
    + pose proof (typing_sweep_stop now st) as H.
      induction H as [|e out [u ->] _ IH]; cbn [map snd]; constructor; auto.
      exact I.
    + eapply Forall_impl; [|apply typing_sweep_stop].
      intros e [u ->]. reflexivity.
Qed.

(** X18. The connection that joins ends up with the server's store as
    its message list and with exactly the users whose status is 'online'
    after the join as its online list, whatever it showed before. *)
Theorem joiner_view
    (self : SocketId) (user : string) (st : State) (v : ClientView) :
  str_wf (userStatus st) ->
  c_messages (client_after self (on_join self user) st v) = messages st /\
  (forall u,
     In u (c_onlineUsers (client_after self (on_join self user) st v)) <->
     str_get u (userStatus (fst (join self user st))) = Some "online").
Proof.
  intros Hwf. unfold client_after. cbn [handle]. unfold join, inbox.
  cbn [snd fst filter receives map]. rewrite String.eqb_refl.
  cbn [userStatus].
  set (us := str_set user "online" (userStatus st)).
  assert (str_wf us) as Hus by now apply str_wf_set.
  cbn [negb filter receives fst map snd client_run fold_left client_on
       c_messages c_onlineUsers].
  split; [reflexivity|]. intros u.
  rewrite in_map_iff. split.
  - intros [[u' s] [E H]]. cbn in E. subst u'.
    apply filter_In in H. destruct H as [H Hs].
    apply filter_In in H. destruct H as [H _].
    cbn [snd] in Hs. apply String.eqb_eq in Hs. subst s.
    now apply str_wf_In_get.
  - intros G. exists (u, "online"). split; [reflexivity|].
    apply filter_In. split; [|reflexivity].
    apply filter_In. split; [|reflexivity]. now apply str_get_In.
Qed.

(** X20. The client never trims: when the store already holds 100
    messages, a client in step with it appends the new message and keeps
    the ones the server evicts, so its list is the server's 100 messages
    preceded by at least one message the server no longer has. *)
Theorem client_keeps_evicted
    (c : SocketId) (now : Z) (rnd : Number) (iso : string) (data : SendData)
    (st : State) (v : ClientView) :
  c_messages v = messages st ->
  (100 <= List.length (messages st))%nat ->
  exists evicted,
    evicted <> [] /\
    c_messages (client_after c (on_send_message now rnd iso data) st v)
    = evicted ++ messages (fst (send_message now rnd iso data st)) /\
    List.length (messages (fst (send_message now rnd iso data st))) = 100%nat.
Proof.
  intros Hm Hlen. unfold client_after. cbn [handle].
  rewrite inbox_all_io_emit by (repeat constructor).
  cbn [send_message snd fst map client_run fold_left client_on c_messages
       messages].
  rewrite Hm, push_and_trim_slice.
  destruct (slice_last_suffix 100
              (messages st ++ [build_message now rnd iso data]))
    as [evicted [E L]].
  rewrite length_app in L. cbn [List.length] in L.
  exists evicted. repeat split.
  - intros ->. cbn in L. lia.
  - exact E.
  - rewrite slice_last_length, length_app. cbn [List.length]. lia.
Qed.






(* ================================================================== *)
(** * Part V. Scenarios for the further properties                     *)
(* ================================================================== *)

(** X3, witness: [lev] edits the message. *)
Lemma edit_message_in_place_witness :
  let data := {| e_messageId := lev_id; e_username := "lev";
                 e_newContent := "hello" |} in
  map content (messages (fst (edit_message "2023-11-14T22:14:00.000Z" data
                                           lev_alone))) = ["hello"] /\
  map id (messages (fst (edit_message "2023-11-14T22:14:00.000Z" data
                                      lev_alone)))
  = map id (messages lev_alone).
Proof.
  intros data.
  destruct (edit_message_in_place "2023-11-14T22:14:00.000Z" data lev_alone
              (built (1700000000000, 0.5%float, "2023-11-14T22:13:20.000Z",
                      text_from "lev" "hi"))
              eq_refl eq_refl)
    as [pre [post [_ [_ [Hid _]]]]].
  split; [reflexivity|exact Hid].
Defined.

(** X5, witness: [lev] sends a message while [lev] and [cin] are typing. *)
Lemma send_message_appends_witness :
  let st' := fst (send_message 3000 0.5%float "t" (text_from "lev" "hi")
                               both_typing) in
  str_wf (typingUsers both_typing) /\
  str_has "lev" (typingUsers st') = false /\
  str_get "cin" (typingUsers st') = Some 2500.
Proof.
  intros st'. subst st'.
  assert (str_wf (typingUsers both_typing)) as Hwf by (vm_compute; auto).
  destruct (send_message_appends 3000 0.5%float "t" (text_from "lev" "hi")
              both_typing Hwf) as [_ [Hh Ho]].
  split; [exact Hwf|]. split; [exact Hh|].
  rewrite (Ho "cin"); [reflexivity|discriminate].
Defined.

(** X6, witness: the sweep at 4001 ms announces [lev] and keeps [cin]. *)
Lemma typing_sweep_exact_witness :
  NoDup (stopped_users (snd (typing_sweep 4001 both_typing))) /\
  stopped_users (snd (typing_sweep 4001 both_typing)) = ["lev"] /\
  typingUsers (fst (typing_sweep 4001 both_typing)) = [("cin", 2500)].
Proof.
  assert (str_wf (typingUsers both_typing)) as Hwf by (vm_compute; auto).
  destruct (typing_sweep_exact 4001 both_typing Hwf) as [_ [_ [Hn _]]].
  split; [exact Hn|]. split; reflexivity.
Defined.

(** X7, witness: a second sweep at 4000 ms after the one at 4001 ms. *)
Lemma typing_sweep_twice_witness :
  typing_sweep 4000 (fst (typing_sweep 4001 both_typing))
  = (fst (typing_sweep 4001 both_typing), []).
Proof.
  assert (str_wf (typingUsers both_typing)) as Hwf by (vm_compute; auto).
  apply (typing_sweep_twice 4001 4000 both_typing Hwf). lia.
Defined.

(** X8, witness: [cin]'s receipt outlives the delete of [lev]'s message. *)
Lemma receipts_never_shrink_witness :
  In "cin"
     (readers_of lev_id
        (readReceipts
           (fst (run [on_delete_message
                        {| d_messageId := lev_id; d_username := "lev" |}]
                     lev_read_by_cin)))).
Proof.
  apply receipts_never_shrink. vm_compute. left. reflexivity.
Defined.

(** X9, witness: both sockets of [lev] disconnect; the entry stays. *)
Lemma presence_persists_witness :
  let st' := fst (run [on_disconnect "s1"; on_disconnect "s2"] two_sockets) in
  str_has "lev" (userStatus st') = true /\ Forall status_ok (userStatus st').
Proof.
  intros st'.
  destruct (presence_persists [on_disconnect "s1"; on_disconnect "s2"]
              two_sockets "lev") as [H1 H2].
  split.
  - apply H1. reflexivity.
  - apply H2. constructor; [left; reflexivity|constructor].
Defined.

(** X10, witness: socket [s1] disconnects twice. *)
Lemma disconnect_twice_witness :
  disconnect "s1" (fst (disconnect "s1" two_sockets))
  = (fst (disconnect "s1" two_sockets), []).
Proof.
  apply disconnect_twice. vm_compute. auto.
Defined.

(** X11, witness: [lev] closes one of two tabs. *)
Lemma disconnect_with_second_socket_witness :
  str_get "lev" (userStatus (fst (disconnect "s1" two_sockets)))
  = Some "offline" /\
  str_get "s2" (connectedUsers (fst (disconnect "s1" two_sockets)))
  = Some "lev".
Proof.
  destruct (disconnect_with_second_socket "s1" "s2" "lev" two_sockets
              eq_refl ltac:(discriminate) ltac:(discriminate) eq_refl)
    as [H1 [H2 _]].
  split; assumption.
Defined.

(** X12, witness: [lev] joins the fresh server and leaves. *)
Lemma join_then_disconnect_witness :
  connectedUsers (fst (disconnect "s1" (fst (join "s1" "lev" initial)))) = [] /\
  str_get "lev" (userStatus (fst (disconnect "s1"
                                    (fst (join "s1" "lev" initial)))))
  = Some "offline".
Proof.
  pose proof (join_then_disconnect "s1" "lev" initial I ltac:(discriminate)
                eq_refl) as H.
  cbv zeta in H. destruct H as [H1 [H2 _]]. split; assumption.
Defined.

(** X13, witness: [lev] starts and stops typing on the fresh server. *)
Lemma typing_then_stop_witness :
  typingUsers (fst (stop_typing "s1" "lev"
                      (fst (typing "s1" 1000 "lev" initial)))) = [].
Proof.
  pose proof (typing_then_stop "s1" "s1" 1000 "lev" initial I) as H.
  cbv zeta in H. destruct H as [_ H]. apply H. reflexivity.
Defined.

(** X14, witness: [lev] deletes the message twice. *)
Lemma delete_message_twice_witness :
  let data := {| d_messageId := lev_id; d_username := "lev" |} in
  delete_message data (fst (delete_message data lev_alone))
  = (fst (delete_message data lev_alone), []).
Proof.
  intros data.
  assert (ids_distinct (messages lev_alone)) as Hd
    by (split; [intros m' []|exact I]).
  exact (proj1 (delete_message_twice data lev_alone Hd)).
Defined.

(** X17, witness: a connection that never joined receives [lev]'s
    message. *)
Lemma message_events_reach_everyone_witness :
  inbox "s9" (snd (handle lev_says_hi initial))
  = map snd (snd (handle lev_says_hi initial)).
Proof. apply message_events_reach_everyone. reflexivity. Defined.

(** X18, witness: [cin] joins after [lev] and sees both online. *)
Lemma joiner_view_witness :
  let st := fst (join "s1" "lev" initial) in
  c_messages (client_after "s2" (on_join "s2" "cin") st empty_view) = [] /\
  In "lev" (c_onlineUsers (client_after "s2" (on_join "s2" "cin") st
                                        empty_view)).
Proof.
  intros st.
  assert (str_wf (userStatus st)) as Hwf by (vm_compute; auto).
  destruct (joiner_view "s2" "cin" st empty_view Hwf) as [H1 H2].
  split; [exact H1|]. apply H2. reflexivity.
Defined.

(** A client in step with the store follows [lev]'s delete. *)
Lemma client_stays_in_sync_witness :
  let i := on_delete_message {| d_messageId := lev_id; d_username := "lev" |} in
  in_sync (client_after "s2" i lev_alone (view_of lev_alone))
          (fst (handle i lev_alone)).
Proof.
  intros i. apply client_stays_in_sync.
  - split; reflexivity.
  - split; [intros m' []|exact I].
  - cbn. lia.
Defined.

(** X20, witness: the 101st message arrives at a client in step with a
    full store. *)
Lemma client_keeps_evicted_witness :
  exists evicted,
    evicted <> [] /\
    c_messages (client_after "s1"
                  (on_send_message 100 0.5%float "t" (text_from "cin" "y"))
                  full_store (view_of full_store))
    = evicted ++ messages (fst (send_message 100 0.5%float "t"
                                  (text_from "cin" "y") full_store)) /\
    List.length (messages (fst (send_message 100 0.5%float "t"
                                  (text_from "cin" "y") full_store)))
    = 100%nat.
Proof.
  apply client_keeps_evicted; [reflexivity|].
  vm_compute. apply le_n.
Defined.


(** X22, witness: socket [s1] joins as [lev], joins again as [cin] and
    disconnects. *)
Lemma rejoin_leaves_stale_presence_witness :
  let st' := fst (disconnect "s1"
                    (fst (join "s1" "cin" (fst (join "s1" "lev" initial))))) in
  str_get "lev" (userStatus st') = Some "online" /\
  str_get "cin" (userStatus st') = Some "offline" /\
  str_get "s1" (connectedUsers st') = None.
Proof.
  intros st'.
  pose proof (rejoin_leaves_stale_presence "s1" "lev" "cin" initial I
                ltac:(discriminate) ltac:(discriminate)) as H.
  cbv zeta in H. destruct H as [H1 [H2 [H3 _]]]. repeat split; assumption.
Defined.

